(** * proteld: payload validation, corruption detection and the session loop

    A shallow embedding of [proteld.c] (the Protel dialer daemon): the
    autocorrection pass, the payload validator [data_done], the corruption
    test of the read loop, the read loop of [handler] itself and the file
    name derivation of [save_data], followed by the properties proved of
    them.

    Conventions.
    - A byte is a [Z]; the buffers of the program are arrays of
      [unsigned char], so the values the program meets are in [0, 255].
      The lemmas below hold for every [Z].
    - A piece of memory (an array, or the part of an array a pointer points
      into) is a [list Z].  A pointer [p + k] into the array [p] is the
      list [skipn k p].
    - [int] and [size_t] variables are [Z].  The subtraction on [size_t] is
      written with its wrap-around modulo [2^64]. *)

From Stdlib Require Import Ascii String.
From Stdlib Require Import ZArith List Bool Lia Arith.
Import ListNotations.

Local Open Scope Z_scope.

(** ** Constants and character classes *)

Definition STAR : Z := 42.          (* '*' *)
Definition DATA_LENGTH : Z := 54.
Definition DATA_STARS : Z := 8.

(** [isdigit] of the C locale. *)
Definition isdigit (c : Z) : bool := (48 <=? c) && (c <=? 57).

(** [#define is_d(x) (x == 'D')] *)
Definition is_d (x : Z) : bool := x =? 68.

(** [#define TRUE(x) (1)] *)
Definition TRUE (x : Z) : bool := true.

(** ** The C library functions the program calls *)

(** [data[i]]: read of one byte.  Every read the program makes is inside
    the array; outside the list the model answers the terminator. *)
Definition peek (data : list Z) (i : nat) : Z := nth i data 0.

(** [data[i] = c]: store of one byte.  Every store of the program is
    inside the array (shown for the read loop below); outside the list the
    model stores nothing. *)
Fixpoint poke (i : nat) (c : Z) (data : list Z) : list Z :=
  match data, i with
  | [], _ => []
  | _ :: t, O => c :: t
  | h :: t, S i' => h :: poke i' c t
  end.

(** [strlen(s)]: the number of bytes before the first zero byte.  The read
    loop stores a terminator inside the array before every call that ends
    here, so the scan stops inside the list. *)
Fixpoint strlen (s : list Z) : nat :=
  match s with
  | [] => O
  | c :: s' => if c =? 0 then O else S (strlen s')
  end.

(** [memchr(s, c, n)]: offset of the first byte equal to [c] among the
    first [n] bytes of [s], [None] for the null pointer. *)
Fixpoint memchr (s : list Z) (c : Z) (n : nat) : option nat :=
  match n, s with
  | S n', x :: s' =>
      if x =? c then Some O else option_map S (memchr s' c n')
  | _, _ => None
  end.

(** Does [needle] lie at the very start of [hay]? *)
Fixpoint starts_with (needle hay : list Z) : bool :=
  match needle, hay with
  | [], _ => true
  | _ :: _, [] => false
  | a :: needle', b :: hay' => (a =? b) && starts_with needle' hay'
  end.

(** [memmem(hay, haylen, needle, needlelen)], with the two lengths those of
    the lists: offset of the first occurrence of [needle] in [hay]. *)
Fixpoint memmem (hay needle : list Z) : option nat :=
  if starts_with needle hay then Some O
  else match hay with
       | [] => None
       | _ :: hay' => option_map S (memmem hay' needle)
       end.

(** ** Autocorrection *)

(** The macro [AUTOCORRECT(pos, c, condl, condr)], applied to [data].  The
    two messages it prints are left out. *)
Definition AUTOCORRECT (pos : nat) (c : Z) (condl condr : Z -> bool)
    (data : list Z) : list Z :=
  if negb (peek data pos =? c) then
    if condl (peek data (pos - 1)) && condr (peek data (pos + 1))
    then poke pos c data
    else data
  else data.

Definition autocorrect (data : list Z) : list Z :=
  if (Z.of_nat (strlen data) <=? DATA_LENGTH) then data (* Too short *)
  else
    let data := AUTOCORRECT 11 STAR isdigit isdigit data in
    let data := AUTOCORRECT 17 STAR isdigit is_d data in
    let data := AUTOCORRECT 24 STAR isdigit isdigit data in
    let data := AUTOCORRECT 29 STAR isdigit isdigit data in
    let data := AUTOCORRECT 33 STAR isdigit isdigit data in
    let data := AUTOCORRECT 47 STAR isdigit isdigit data in
    let data := AUTOCORRECT 53 STAR isdigit TRUE data in
    data.

(** The seven macro calls of [autocorrect] as a table: offset, expected
    character, predicate on the left neighbour, predicate on the right
    neighbour. *)
Record rule : Type := Rule {
  rule_pos : nat;
  rule_char : Z;
  rule_condl : Z -> bool;
  rule_condr : Z -> bool
}.

Definition rules : list rule :=
  [ Rule 11 STAR isdigit isdigit;
    Rule 17 STAR isdigit is_d;
    Rule 24 STAR isdigit isdigit;
    Rule 29 STAR isdigit isdigit;
    Rule 33 STAR isdigit isdigit;
    Rule 47 STAR isdigit isdigit;
    Rule 53 STAR isdigit TRUE ].

Definition apply_rule (data : list Z) (r : rule) : list Z :=
  AUTOCORRECT (rule_pos r) (rule_char r) (rule_condl r) (rule_condr r) data.

(** ** The payload validator *)

(** The loop [while ( *tmp) { if ( *tmp++ == '*') stars++; }] started at
    [s]: the final value of [stars] and the distance [tmp] has moved. *)
Fixpoint star_loop (s : list Z) (stars : Z) (moved : nat) : Z * nat :=
  match s with
  | [] => (stars, moved)
  | c :: s' =>
      if c =? 0 then (stars, moved)
      else star_loop s' (if c =? STAR then stars + 1 else stars) (S moved)
  end.

(** [data_done(buf, len)]: the value returned ([true] for 1) and the array
    after the call, which autocorrection may have rewritten in place. *)
Definition data_done (buf : list Z) (len : Z) : bool * list Z :=
  if len <? DATA_LENGTH then (false, buf) (* Not enough data received yet *)
  else
    match memchr buf STAR (Z.to_nat len) with
    | None => (false, buf)
    | Some start =>
        (* Calculate actual data length *)
        let len := len - Z.of_nat start in
        if len <? DATA_LENGTH then (false, buf) (* Payload still too small *)
        else
          let data := autocorrect (skipn start buf) in
          let buf := firstn start buf ++ data in
          let '(stars, tmp) := star_loop data 0 O in
          if stars <? DATA_STARS - 1 then (false, buf)
          else if (tmp <? 53)%nat then (false, buf) (* Not long enough *)
          else (true, buf)
    end.

(** ** The corruption test of the read loop *)

(** The condition of the [else if] that follows the call of [data_done]:
    [bytes_read > DATA_LENGTH && (memmem(buf + 30, bytes_read - 30,
    "\x01\x00\x00", 3) || memmem(buf + 30, bytes_read - 30,
    "\x00\x00\x00", 3))]. *)
Definition marker_reset : list Z := [1; 0; 0].
Definition marker_null : list Z := [0; 0; 0].

Definition is_some {A} (o : option A) : bool :=
  match o with Some _ => true | None => false end.

Definition is_corrupted (buf : list Z) (bytes_read : Z) : bool :=
  (bytes_read >? DATA_LENGTH)
  && (let hay := firstn (Z.to_nat (bytes_read - 30)) (skipn 30 buf) in
      is_some (memmem hay marker_reset) || is_some (memmem hay marker_null)).

(** ** Text *)

(** The bytes of a string literal, without the terminator. *)
Definition bytes (s : string) : list Z :=
  map (fun a => Z.of_N (N_of_ascii a)) (list_ascii_of_string s).

(** The characters of the C string that starts at [s]: what [%s] prints. *)
Definition c_string (s : list Z) : list Z := firstn (strlen s) s.

(** [%.*s] with precision [n]: at most [n] characters of the C string. *)
Definition c_string_prec (n : nat) (s : list Z) : list Z :=
  firstn n (c_string s).

(** The decimal digits of [v >= 0], the last one first, [n] of them at
    most. *)
Fixpoint digits_rev (n : nat) (v : Z) : list Z :=
  match n with
  | O => []
  | S n' =>
      if v <? 10 then [48 + v]
      else (48 + v mod 10) :: digits_rev n' (v / 10)
  end.

(** [%lu] of a 64-bit [unsigned long]: 20 digits at most. *)
Definition fmt_lu (v : Z) : list Z := rev (digits_rev 20 (v mod 2 ^ 64)).

(** [%d] of a 32-bit [int]: a sign and 10 digits at most. *)
Definition fmt_d (v : Z) : list Z :=
  if v <? 0 then 45 :: rev (digits_rev 10 (- v))
  else rev (digits_rev 10 v).

(** [snprintf(dst, size, ...)] of a text: the characters left in [dst]. *)
Definition snprintf (size : nat) (text : list Z) : list Z :=
  firstn (size - 1) text.

(** ** The world outside the process *)

(** What the connection delivers, in order of arrival: a non-empty run of
    bytes that is available together, or a failing [read].  At the end of
    the list the peer has closed the connection. *)
Inductive arrival : Type :=
| Data (b : Z) (more : list Z)
| Failure.

(** [read(fd, pos, count)] on the connection: the value returned, the bytes
    stored at [pos] and what is left to arrive. *)
Definition sys_read (count : Z) (net : list arrival)
    : Z * list Z * list arrival :=
  match net with
  | [] => (0, [], [])
  | Failure :: net' => (-1, [], net')
  | Data b more :: net' =>
      if count <=? 0 then (0, [], net)
      else
        let got := firstn (Z.to_nat count) (b :: more) in
        let net'' := match skipn (Z.to_nat count) (b :: more) with
                     | [] => net'
                     | r :: rs => Data r rs :: net'
                     end in
        (Z.of_nat (length got), got, net'')
  end.

(** The file system and clock as [save_data] meets them. *)
Record disk : Type := Disk {
  now : Z;                        (* time(NULL) on the success path *)
  attempts : list (Z * Z);        (* time(NULL), rand() of each name tried *)
  taken : list Z -> bool;         (* !access(filename, R_OK) *)
  open_fd : list Z -> Z;          (* open(filename, O_WRONLY | O_CREAT) *)
  written : list Z -> Z           (* write(fd, data, len) *)
}.

(** The options of the command line that the session uses: [log_to_file]
    and [outputdir] (a C string of at most 511 characters, as
    [parse_options] stores it). *)
Record config : Type := Config {
  log_to_file : bool;
  outputdir : list Z
}.

(** The system calls of one session, in the order they are made. *)
Inductive event : Type :=
| EvRead (count res : Z)
| EvCloseSocket
| EvFilename (name : list Z)
| EvOpen (name : list Z) (fd : Z)
| EvWrite (data : list Z) (wres : Z)
| EvCloseFile.

(** The events of [save_data]. *)
Definition is_persistence (e : event) : bool :=
  match e with
  | EvFilename _ | EvOpen _ _ | EvWrite _ _ | EvCloseFile => true
  | EvRead _ _ | EvCloseSocket => false
  end.

(** ** Persisting the outcome *)

Inductive save_result : Type :=
| Returned (v : Z)
| AssertionFailed      (* assert(tmp != NULL) *)
| NoFreeName.          (* every name tried exists already *)

(** The [do ... while (!access(filename, R_OK))] loop over the names the
    clock and [rand()] produce. *)
Fixpoint pick_name (dir : list Z) (exists_ : list Z -> bool)
    (tries : list (Z * Z)) : option (list Z) * list event :=
  match tries with
  | [] => (None, [])
  | (t, r) :: tries' =>
      let filename :=
        snprintf 684 (c_string dir ++ bytes "/" ++ fmt_lu t ++ bytes "_"
                      ++ fmt_d (Z.rem r 100000) ++ bytes "_R.txt") in
      if exists_ filename then
        let '(found, evs) := pick_name dir exists_ tries' in
        (found, EvFilename filename :: evs)
      else (Some filename, [EvFilename filename])
  end.

(** The part of [save_data] after the file name is known. *)
Definition write_out (dsk : disk) (filename buf : list Z) (len : Z)
    : save_result * list event :=
  let fd := open_fd dsk filename in
  if fd <? 0 then (Returned (-1), [EvOpen filename fd])
  else
    let data := firstn (Z.to_nat len) buf in
    let wres := written dsk data in
    if negb (wres =? len)
    then (Returned (-1), [EvOpen filename fd; EvWrite data wres; EvCloseFile])
    else (Returned 0, [EvOpen filename fd; EvWrite data wres; EvCloseFile]).

Definition save_data (cfg : config) (dsk : disk) (buf : list Z) (len : Z)
    (success : Z) : save_result * list event :=
  if negb (success =? 0) then
    (* Determine the phone number *)
    match memchr buf STAR (Z.to_nat len) with
    | None => (AssertionFailed, [])
    | Some star =>
        let tmp := skipn (S star) buf in
        let filename :=
          snprintf 684 (c_string (outputdir cfg) ++ bytes "/"
                        ++ fmt_lu (now dsk) ++ bytes "_"
                        ++ c_string_prec 10 tmp ++ bytes ".txt") in
        let '(r, evs) := write_out dsk filename buf len in
        (r, EvFilename filename :: evs)
    end
  else
    match pick_name (outputdir cfg) (taken dsk) (attempts dsk) with
    | (None, evs) => (NoFreeName, evs)
    | (Some filename, evs) =>
        let '(r, evs') := write_out dsk filename buf len in
        (r, evs ++ evs')
    end.

(** ** The session: [handler] *)

(** The local variables of [handler].  [pos] is kept as its offset from
    [buf]. *)
Record hstate : Type := HState {
  buf : list Z;
  pos : nat;
  bytes_read : Z;
  left : Z;
  success : Z;
  reset : Z
}.

(** Where the session is: in the [for (;;)] loop, or out of it through the
    [break] after a successful [data_done], the [break] after the second
    corruption, or the [break] after a [read] that returned nothing. *)
Inductive phase : Type := ACCUMULATING | SUCCESS | ABORTED | CLOSED.

Record session : Type := Session {
  vars : hstate;
  stage : phase;
  net : list arrival;
  log : list event
}.

(** Conversion of the [ssize_t] that [read] returns to [int]. *)
Definition to_int (x : Z) : Z := (x + 2 ^ 31) mod 2 ^ 32 - 2 ^ 31.

(** The bytes [got] stored from offset [at_] of the array on. *)
Definition store_at (at_ : nat) (got : list Z) (arr : list Z) : list Z :=
  firstn at_ arr ++ got ++ skipn (at_ + length got) arr.

(** [unsigned char buf[512]] is not initialised: it starts with whatever
    the stack holds, here [junk] cut or padded to the size of the array. *)
Definition fresh_buf (junk : list Z) : list Z :=
  firstn 512 (junk ++ repeat 0 512).

Definition start (junk : list Z) (net : list arrival) : session :=
  Session (HState (fresh_buf junk) O 0 512 0 0) ACCUMULATING net [].

(** What one pass through the body of the loop finds: a [read] that
    returned nothing, a complete printout, the mark of a corrupted one, or
    neither yet. *)
Inductive finding : Type := Nothing | Valid | Corrupt | Partial.

(** The first part of a pass: the [read], the bookkeeping of [pos], [left]
    and [bytes_read], the terminator, the call of [data_done] and, when it
    returns 0, the corruption test.  The echo of the bytes received and the
    messages are left out. *)
Definition look (s : session)
    : finding * hstate * list arrival * list event :=
  let v := vars s in
  let count := (left v - 1) mod 2 ^ 64 in
  let '(r, got, net') := sys_read count (net s) in
  let res := to_int r in
  let log' := log s ++ [EvRead count r] in
  if res <=? 0 then (Nothing, v, net', log')
  else
    let buf1 := store_at (pos v) got (buf v) in
    let pos' := (pos v + Z.to_nat res)%nat in
    let left' := (left v - res) mod 2 ^ 64 in
    let bytes_read' := bytes_read v + res in
    (* Null terminate so we can use string comparison functions *)
    let buf2 := poke (Z.to_nat bytes_read') 0 buf1 in
    let '(done, buf3) := data_done buf2 bytes_read' in
    let v' := HState buf3 pos' bytes_read' left' (success v) (reset v) in
    if done then (Valid, v', net', log')
    else if is_corrupted buf3 bytes_read' then (Corrupt, v', net', log')
    else (Partial, v', net', log').

(** One pass through the body of the [for (;;)] loop: what is done with
    what was found. *)
Definition iteration (s : session) : session :=
  match stage s with
  | ACCUMULATING =>
      let '(found, v, net', log') := look s in
      match found with
      | Nothing => Session v CLOSED net' log'
      | Valid =>
          Session (HState (buf v) (pos v) (bytes_read v) (left v) 1 (reset v))
                  SUCCESS net' log'
      | Corrupt =>
          (* Payload was probably corrupted.
             Reset and see if it comes through the second time. *)
          let reset' := reset v + 1 in
          if reset' =? 2 then
            Session (HState (buf v) (pos v) (bytes_read v) (left v)
                            (success v) reset')
                    ABORTED net' log'
          else
            Session (HState (buf v) O 0 512 (success v) reset')
                    ACCUMULATING net' log'
      | Partial => Session v ACCUMULATING net' log'
      end
  | _ => s
  end.

Definition run (n : nat) (s : session) : session := Nat.iter n iteration s.

(** What [handler] has done when it returns. *)
Record result : Type := Result {
  outcome : phase;
  final : hstate;
  effects : list event;
  saved : option save_result
}.

(** The statements of [handler] after the loop. *)
Definition epilogue (cfg : config) (dsk : disk) (s : session) : result :=
  let v := vars s in
  let closed := log s ++ [EvCloseSocket] in
  if log_to_file cfg then
    let '(r, evs) :=
      save_data cfg dsk (buf v) (bytes_read v) (success v) in
    Result (stage s) v (closed ++ evs) (Some r)
  else Result (stage s) v closed None.

(** [handler], with a bound on the number of passes through the loop. *)
Definition handler (cfg : config) (dsk : disk) (junk : list Z)
    (net : list arrival) (fuel : nat) : option result :=
  let s := run fuel (start junk net) in
  match stage s with
  | ACCUMULATING => None
  | _ => Some (epilogue cfg dsk s)
  end.

(** A number of passes that is enough for the arrivals [net]. *)
Fixpoint weight (net : list arrival) : nat :=
  match net with
  | [] => O
  | Data _ more :: net' => 2 + length more + weight net'
  | Failure :: net' => 1 + weight net'
  end.

Definition session_fuel (net : list arrival) : nat := S (weight net).

(** ** Vocabulary of the properties *)

(** What a rule leaves at its own offset. *)
Definition corrected (pos : nat) (c : Z) (condl condr : Z -> bool)
    (data : list Z) : Z :=
  if negb (peek data pos =? c)
     && condl (peek data (pos - 1)) && condr (peek data (pos + 1))
  then c else peek data pos.

(** The seven rules, applied when the string is long enough. *)
Definition fixups (data : list Z) : list Z :=
  fold_left apply_rule rules data.

(** Two offsets of the table are never neighbours. *)
Definition apart (p q : nat) : Prop := (p + 1 < q \/ q + 1 < p)%nat.

Fixpoint spaced (rs : list rule) : Prop :=
  match rs with
  | [] => True
  | r :: rs' =>
      (forall r', In r' rs' -> apart (rule_pos r) (rule_pos r'))
      /\ spaced rs'
  end.

(** [m] occurs in [s] at offset [i], all of it inside [s]. *)
Definition occurs_at (m s : list Z) (i : nat) : Prop :=
  firstn (length m) (skipn i s) = m.

(** The number of ['*'] in the C string at [s]. *)
Definition star_count (s : list Z) : nat :=
  count_occ Z.eq_dec (c_string s) STAR.

(** Offsets listed from the highest down, all below [bound]. *)
Fixpoint below (bound : nat) (ps : list nat) : Prop :=
  match ps with
  | [] => True
  | p :: ps' => (p < bound)%nat /\ below p ps'
  end.

(** The offsets at which the layout of a printout has its delimiters,
    counted from the first one. *)
Definition star_offsets : list nat := [11; 17; 24; 29; 33; 47; 53]%nat.

(** The events of the read loop. *)
Definition is_read (e : event) : bool :=
  match e with EvRead _ _ => true | _ => false end.

(** What holds of the variables of [handler] at every point of the loop:
    the array keeps its 512 bytes, the fill length stays below 512, [pos]
    and [left] follow it. *)
Definition in_bounds (v : hstate) : Prop :=
  length (buf v) = 512%nat
  /\ 0 <= bytes_read v <= 511
  /\ pos v = Z.to_nat (bytes_read v)
  /\ left v = 512 - bytes_read v.

(** What holds of a session at every point: the bounds, the value of
    [reset] and [success] in each stage, and a log made of reads. *)
Definition sound (s : session) : Prop :=
  in_bounds (vars s)
  /\ (stage s = ABORTED /\ reset (vars s) = 2
      \/ stage s <> ABORTED /\ (reset (vars s) = 0 \/ reset (vars s) = 1))
  /\ success (vars s) = (match stage s with SUCCESS => 1 | _ => 0 end)
  /\ forallb is_read (log s) = true
  /\ (stage s = SUCCESS ->
      exists b, data_done b (bytes_read (vars s)) = (true, buf (vars s))).

(** What the next pass through the loop finds. *)
Definition found_by (s : session) : finding := fst (fst (fst (look s))).

(** The system calls of a session that has ended. *)
Definition effects_of (o : option result) : list event :=
  match o with Some r => effects r | None => [] end.

(** What the final array tells about a session that has left the loop
    through the [break] of a complete printout or of the second
    corruption. *)
Definition judged (s : session) : Prop :=
  let v := vars s in
  match stage s with
  | SUCCESS => data_done (buf v) (bytes_read v) = (true, buf v)
  | ABORTED =>
      data_done (buf v) (bytes_read v) = (false, buf v)
      /\ is_corrupted (buf v) (bytes_read v) = true
  | _ => True
  end.

(** Two sessions that differ at most in what their arrays hold from the
    fill length on. *)
Definition alike (s1 s2 : session) : Prop :=
  stage s1 = stage s2 /\ net s1 = net s2 /\ log s1 = log s2
  /\ pos (vars s1) = pos (vars s2)
  /\ bytes_read (vars s1) = bytes_read (vars s2)
  /\ left (vars s1) = left (vars s2)
  /\ success (vars s1) = success (vars s2)
  /\ reset (vars s1) = reset (vars s2)
  /\ firstn (Z.to_nat (bytes_read (vars s1))) (buf (vars s1))
     = firstn (Z.to_nat (bytes_read (vars s2))) (buf (vars s2)).

(** The bytes the connection delivers before it closes or fails. *)
Fixpoint delivered (net : list arrival) : list Z :=
  match net with
  | [] => []
  | Data b more :: net' => (b :: more) ++ delivered net'
  | Failure :: _ => []
  end.


Definition is_filename (e : event) : bool :=
  match e with EvFilename _ => true | _ => false end.

(** ** Sample inputs *)

(** The printout of the comment in [handler]. *)
Definition printout : list Z :=
  bytes "*3115552368*43125*DD8822*1234*032*2312237122028*37090*".

(** The same with the second delimiter received as ['X'], and one more
    character after the last delimiter. *)
Definition garbled_printout : list Z :=
  bytes "*3115552368X43125*DD8822*1234*032*2312237122028*37090*x".

(** The printout with a zero byte received in place of its sixth
    character. *)
Definition printout_with_nul : list Z :=
  bytes "*3115" ++ [0]
  ++ bytes "52368*43125*DD8822*1234*032*2312237122028*37090*".

(** The printout without its last delimiter, followed by a zero byte and
    three more bytes. *)
Definition printout_cut_short : list Z :=
  bytes "*3115552368*43125*DD8822*1234*032*2312237122028*37090"
  ++ [0] ++ bytes "abc".

(** The bytes that come before the printout in the comment of [handler]:
    [TC!], three zero bytes, 144, four zero bytes. *)
Definition preamble : list Z := bytes "TC!" ++ [0; 0; 0; 144; 0; 0; 0; 0].

(** The garbled printout with its last delimiter missing too: six
    delimiters are left, and both missing ones stand between digits. *)
Definition twice_garbled_printout : list Z :=
  bytes "*3115552368X43125*DD8822*1234*032*2312237122028*37090Yx".

(** Three delimiters and then noise. *)
Definition noisy_printout : list Z :=
  bytes "*3115552368*43125*DD8822xxxxxxxxxxxxxxxxxxxxxxxxxxxxxxxx".

(** The array as the read loop leaves it with [received] in it: the bytes
    received and the terminator after them. *)
Definition terminated (received : list Z) : list Z := received ++ [0].

(** A printout whose first field is made of letters. *)
Definition lettered_printout : list Z :=
  bytes "*ABCDEFGHIJ*43125*DD8822*1234*032*2312237122028*37090*".

(** A disk on which nothing exists yet and every call succeeds, at a time
    of 1700000000 seconds. *)
Definition sample_disk : disk :=
  Disk 1700000000 [(1700000000, 12345)] (fun _ => false) (fun _ => 3)
       (fun data => Z.of_nat (length data)).

(** [proteld -p 8300 -f printouts] *)
Definition sample_config : config := Config true (bytes "printouts").

(** A call that delivers 40 letters and a zero marker, twice. *)
Definition corrupted_twice : list arrival :=
  [Data 65 (repeat 65 39 ++ [0; 0; 0] ++ repeat 65 20);
   Data 66 (repeat 66 39 ++ [0; 0; 0] ++ repeat 66 20)].

(** A call that delivers a delimiter and 600 letters at once. *)
Definition flood : list arrival := [Data 42 (repeat 65 600)].

(** A call that delivers the preamble and then the printout. *)
Definition good_call : list arrival :=
  [Data 84 (tl preamble); Data 42 (tl printout)].

(** A call that delivers the printout with the lettered first field. *)
Definition lettered_call : list arrival := [Data 42 (tl lettered_printout)].

(** Seven delimiters in a row and 47 letters: nothing of the layout of a
    printout. *)
Definition stars_up_front : list Z :=
  bytes "*******AAAAAAAAAAAAAAAAAAAAAAAAAAAAAAAAAAAAAAAAAAAAAAA".

(** A call that is dropped after 20 bytes, none of them a delimiter. *)
Definition dropped_call : list arrival :=
  [Data 84 [67; 33]; Data 0 (repeat 0 16)].


(** * Properties *)

(** ** Reads and stores *)

Lemma poke_length (i : nat) (c : Z) (d : list Z) :
  length (poke i c d) = length d.
Proof.
  revert i; induction d as [|h t IH]; intros [|i]; simpl; auto.
Qed.

Lemma peek_poke_same (i : nat) (c : Z) (d : list Z) :
  (i < length d)%nat -> peek (poke i c d) i = c.
Proof.
  unfold peek. revert i; induction d as [|h t IH]; intros [|i] Hi;
    simpl in *; try lia; auto.
  apply IH; lia.
Qed.

Lemma peek_poke_other (i j : nat) (c : Z) (d : list Z) :
  i <> j -> peek (poke i c d) j = peek d j.
Proof.
  unfold peek. revert i j; induction d as [|h t IH]; intros [|i] [|j] Hij;
    simpl; auto; try congruence.
Qed.

Lemma strlen_le_length (s : list Z) : (strlen s <= length s)%nat.
Proof.
  induction s as [|c s IH]; simpl; [lia|].
  destruct (c =? 0); lia.
Qed.

Lemma strlen_poke (i : nat) (c : Z) (d : list Z) :
  (i < strlen d)%nat -> c <> 0 -> strlen (poke i c d) = strlen d.
Proof.
  intros Hi Hc. revert i Hi; induction d as [|h t IH]; intros i Hi;
    simpl in *; [lia|].
  destruct (h =? 0) eqn:Hh; [lia|].
  destruct i as [|i]; simpl.
  - apply Z.eqb_neq in Hc. now rewrite Hc.
  - rewrite Hh. f_equal. apply IH. lia.
Qed.

(** Before the terminator every byte differs from zero. *)
Lemma peek_before_strlen (s : list Z) (i : nat) :
  (i < strlen s)%nat -> peek s i <> 0.
Proof.
  unfold peek. revert i; induction s as [|c s IH]; intros i Hi;
    simpl in *; [lia|].
  destruct (c =? 0) eqn:Hc; [lia|].
  destruct i as [|i]; [now apply Z.eqb_neq|].
  apply IH; lia.
Qed.

Lemma peek_at_strlen (s : list Z) : peek s (strlen s) = 0.
Proof.
  unfold peek. induction s as [|c s IH]; simpl; auto.
  destruct (c =? 0) eqn:Hc; [now apply Z.eqb_eq|auto].
Qed.

(** [strlen] is the offset of the first zero byte. *)
Lemma strlen_first_zero (s : list Z) (n : nat) :
  (forall i, (i < n)%nat -> peek s i <> 0) ->
  (n <= length s)%nat -> (n <= strlen s)%nat.
Proof.
  revert n; induction s as [|c s IH]; intros n Hnz Hlen; simpl in *;
    [lia|].
  destruct n as [|n]; [lia|].
  destruct (c =? 0) eqn:Hc.
  - apply Z.eqb_eq in Hc. exfalso. apply (Hnz O); [lia|exact Hc].
  - apply le_n_S, IH; [|lia].
    intros i Hi. apply (Hnz (S i)). lia.
Qed.

Lemma strlen_zero_at (s : list Z) (i : nat) :
  (i < length s)%nat -> peek s i = 0 -> (strlen s <= i)%nat.
Proof.
  intros Hlen Hz.
  destruct (Nat.le_gt_cases (strlen s) i) as [H|H]; auto.
  exfalso. now apply (peek_before_strlen s i).
Qed.

(** ** One rule of the autocorrection *)

Lemma AUTOCORRECT_length pos c l r d :
  length (AUTOCORRECT pos c l r d) = length d.
Proof.
  unfold AUTOCORRECT.
  destruct (negb _); auto. destruct (_ && _); auto using poke_length.
Qed.

Lemma AUTOCORRECT_other pos c l r d j :
  pos <> j -> peek (AUTOCORRECT pos c l r d) j = peek d j.
Proof.
  intros Hj. unfold AUTOCORRECT.
  destruct (negb _); auto. destruct (_ && _); auto using peek_poke_other.
Qed.

Lemma AUTOCORRECT_at pos c l r d :
  (pos < length d)%nat ->
  peek (AUTOCORRECT pos c l r d) pos = corrected pos c l r d.
Proof.
  intros Hlen. unfold AUTOCORRECT, corrected.
  destruct (negb _); simpl; auto.
  destruct (l _); simpl; auto. destruct (r _); simpl; auto.
  now apply peek_poke_same.
Qed.

Lemma AUTOCORRECT_strlen pos c l r d :
  (pos < strlen d)%nat -> c <> 0 ->
  strlen (AUTOCORRECT pos c l r d) = strlen d.
Proof.
  intros Hp Hc. unfold AUTOCORRECT.
  destruct (negb _); auto. destruct (_ && _); auto using strlen_poke.
Qed.

(** A rule whose offset already holds the character, or whose neighbours
    do not allow the rewrite, changes nothing. *)
Lemma AUTOCORRECT_fixed pos c l r d :
  peek d pos = c \/ l (peek d (pos - 1)) && r (peek d (pos + 1)) = false ->
  AUTOCORRECT pos c l r d = d.
Proof.
  intros [H|H]; unfold AUTOCORRECT.
  - rewrite H, Z.eqb_refl. reflexivity.
  - rewrite H. now destruct (negb _).
Qed.

Lemma corrected_fixed pos c l r d :
  corrected pos c l r d = c
  \/ l (peek d (pos - 1)) && r (peek d (pos + 1)) = false.
Proof.
  unfold corrected.
  destruct (peek d pos =? c) eqn:He; simpl.
  - left. now apply Z.eqb_eq.
  - destruct (l _), (r _); simpl; auto.
Qed.

(** ** The whole pass *)

Lemma autocorrect_unfold (data : list Z) :
  autocorrect data =
  if (Z.of_nat (strlen data) <=? DATA_LENGTH) then data else fixups data.
Proof. reflexivity. Qed.

Lemma fold_rules_length (rs : list rule) (d : list Z) :
  length (fold_left apply_rule rs d) = length d.
Proof.
  revert d; induction rs as [|r rs IH]; intros d; simpl; auto.
  rewrite IH. apply AUTOCORRECT_length.
Qed.

Lemma fold_rules_other (rs : list rule) (d : list Z) (j : nat) :
  (forall r, In r rs -> rule_pos r <> j) ->
  peek (fold_left apply_rule rs d) j = peek d j.
Proof.
  revert d; induction rs as [|r rs IH]; intros d Hj; simpl; auto.
  rewrite IH by (intros; apply Hj; now right).
  apply AUTOCORRECT_other. apply Hj. now left.
Qed.

Lemma fold_rules_strlen (rs : list rule) (d : list Z) :
  (forall r, In r rs -> (rule_pos r < strlen d)%nat /\ rule_char r <> 0) ->
  strlen (fold_left apply_rule rs d) = strlen d.
Proof.
  revert d; induction rs as [|r rs IH]; intros d H; simpl; auto.
  assert (Hr : strlen (apply_rule d r) = strlen d).
  { apply AUTOCORRECT_strlen; apply H; now left. }
  rewrite IH; auto.
  intros r' Hr'. rewrite Hr. apply H. now right.
Qed.

Lemma rules_spaced : spaced rules.
Proof.
  simpl. unfold apart.
  repeat split; intros r' Hr'; simpl in Hr';
    repeat (destruct Hr' as [<-|Hr']; [simpl; lia|]); contradiction.
Qed.

(** At the offset of a rule of a spaced table, the pass leaves what that
    rule computes from the bytes the pass started with. *)
Lemma fold_rules_at (rs : list rule) (d : list Z) (r : rule) :
  spaced rs -> In r rs -> (rule_pos r < length d)%nat ->
  (0 < rule_pos r)%nat ->
  peek (fold_left apply_rule rs d) (rule_pos r) =
  corrected (rule_pos r) (rule_char r) (rule_condl r) (rule_condr r) d.
Proof.
  revert d; induction rs as [|r0 rs IH]; intros d Hsp Hin Hlen Hpos;
    [contradiction|].
  destruct Hsp as [Hfar Hsp]. simpl.
  destruct Hin as [->|Hin].
  - rewrite fold_rules_other.
    + now apply AUTOCORRECT_at.
    + intros r' Hr'. specialize (Hfar r' Hr'). unfold apart in Hfar. lia.
  - rewrite IH; auto.
    2: { unfold apply_rule. now rewrite AUTOCORRECT_length. }
    specialize (Hfar r Hin). unfold apart in Hfar.
    unfold corrected, apply_rule.
    rewrite !AUTOCORRECT_other by lia. reflexivity.
Qed.

(** A pass over a buffer on which every rule is already settled changes
    nothing. *)
Lemma fold_rules_fixed (rs : list rule) (d : list Z) :
  (forall r, In r rs ->
     peek d (rule_pos r) = rule_char r
     \/ rule_condl r (peek d (rule_pos r - 1))
        && rule_condr r (peek d (rule_pos r + 1)) = false) ->
  fold_left apply_rule rs d = d.
Proof.
  induction rs as [|r rs IH]; intros H; simpl; auto.
  unfold apply_rule at 2.
  rewrite AUTOCORRECT_fixed by (apply H; now left).
  apply IH. intros r' Hr'. apply H. now right.
Qed.

Lemma rules_facts (r : rule) :
  In r rules ->
  (0 < rule_pos r)%nat /\ (rule_pos r < 54)%nat /\ rule_char r = STAR.
Proof.
  intros H; simpl in H.
  repeat (destruct H as [<-|H]; [simpl; repeat split; lia|]).
  contradiction.
Qed.

Lemma fixups_strlen (d : list Z) :
  (54 <= strlen d)%nat -> strlen (fixups d) = strlen d.
Proof.
  intros H. apply fold_rules_strlen.
  intros r Hr. destruct (rules_facts r Hr) as (_ & Hlt & ->).
  split; [lia|discriminate].
Qed.

Lemma autocorrect_strlen (d : list Z) :
  strlen (autocorrect d) = strlen d.
Proof.
  rewrite autocorrect_unfold.
  destruct (Z.leb_spec (Z.of_nat (strlen d)) DATA_LENGTH); auto.
  apply fixups_strlen. unfold DATA_LENGTH in *. lia.
Qed.

Lemma autocorrect_length (d : list Z) :
  length (autocorrect d) = length d.
Proof.
  rewrite autocorrect_unfold.
  destruct (_ <=? _); auto. apply fold_rules_length.
Qed.

(** C5. For every rule of the table and every buffer whose string is long
    enough for the pass to run (more than 54 characters), the byte the pass
    leaves at the offset of the rule is ['*'] when the byte there differed
    from ['*'], the left predicate holds of the byte before it and the
    right predicate of the byte after it, and is the byte that was there
    in every other case; a byte that is ['*'] stays ['*']. *)
Theorem autocorrect_rewrites_only_between_neighbours (r : rule) (data : list Z) :
  In r rules ->
  DATA_LENGTH < Z.of_nat (strlen data) ->
  peek (autocorrect data) (rule_pos r) =
    (if negb (peek data (rule_pos r) =? STAR)
        && rule_condl r (peek data (rule_pos r - 1))
        && rule_condr r (peek data (rule_pos r + 1))
     then STAR
     else peek data (rule_pos r))
  /\ (peek data (rule_pos r) = STAR ->
      peek (autocorrect data) (rule_pos r) = STAR).
Proof.
  intros Hr Hlen.
  assert (Heq : peek (autocorrect data) (rule_pos r) =
                corrected (rule_pos r) (rule_char r) (rule_condl r)
                  (rule_condr r) data).
  { rewrite autocorrect_unfold.
    destruct (Z.leb_spec (Z.of_nat (strlen data)) DATA_LENGTH); [lia|].
    destruct (rules_facts r Hr) as (Hpos & Hlt & _).
    pose proof (strlen_le_length data). unfold DATA_LENGTH in *.
    apply fold_rules_at; auto using rules_spaced; lia. }
  destruct (rules_facts r Hr) as (_ & _ & Hc).
  rewrite Heq. unfold corrected. rewrite Hc. split; auto.
  intros ->. rewrite Z.eqb_refl. reflexivity.
Qed.

Lemma autocorrect_rewrites_only_between_neighbours_witness :
  In (Rule 11 STAR isdigit isdigit) rules
  /\ DATA_LENGTH < Z.of_nat (strlen garbled_printout)
  /\ peek garbled_printout 11 = 88
  /\ peek (autocorrect garbled_printout) 11 = STAR.
Proof.
  assert (Hr : In (Rule 11 STAR isdigit isdigit) rules) by (simpl; auto).
  assert (Hl : DATA_LENGTH < Z.of_nat (strlen garbled_printout))
    by (vm_compute; reflexivity).
  split; [exact Hr|]. split; [exact Hl|]. split; [reflexivity|].
  destruct (autocorrect_rewrites_only_between_neighbours _ _ Hr Hl)
    as [H _].
  simpl rule_pos in H. rewrite H. reflexivity.
Defined.

(** The neighbours of a rule's offset are not offsets of the table. *)
Lemma rules_neighbours_free (r r' : rule) :
  In r rules -> In r' rules ->
  rule_pos r' <> (rule_pos r - 1)%nat /\ rule_pos r' <> (rule_pos r + 1)%nat.
Proof.
  intros H H'; simpl in H, H'.
  repeat (destruct H as [<-|H]; [|]); try contradiction;
    repeat (destruct H' as [<-|H']; [simpl; lia|]); contradiction.
Qed.

Lemma fixups_settled (d : list Z) (r : rule) :
  In r rules -> (54 < length d)%nat ->
  peek (fixups d) (rule_pos r) = rule_char r
  \/ rule_condl r (peek (fixups d) (rule_pos r - 1))
     && rule_condr r (peek (fixups d) (rule_pos r + 1)) = false.
Proof.
  intros Hr Hlen.
  destruct (rules_facts r Hr) as (Hpos & Hlt & _).
  unfold fixups.
  rewrite fold_rules_at by (auto using rules_spaced; lia).
  rewrite !(fold_rules_other rules d)
    by (intros r' Hr'; now apply (rules_neighbours_free r r')).
  apply corrected_fixed.
Qed.

(** C4. Autocorrection is idempotent: for every buffer, a second pass
    leaves the buffer exactly as the first pass left it. *)
Theorem autocorrect_idempotent (data : list Z) :
  autocorrect (autocorrect data) = autocorrect data.
Proof.
  rewrite (autocorrect_unfold (autocorrect data)), autocorrect_strlen.
  destruct (Z.leb_spec (Z.of_nat (strlen data)) DATA_LENGTH) as [Hs|Hs];
    [reflexivity|].
  rewrite autocorrect_unfold.
  destruct (Z.leb_spec (Z.of_nat (strlen data)) DATA_LENGTH); [lia|].
  apply fold_rules_fixed. intros r Hr.
  apply fixups_settled; auto.
  pose proof (strlen_le_length data). unfold DATA_LENGTH in *. lia.
Qed.

(** ** Searching *)

Lemma starts_with_spec (m h : list Z) :
  starts_with m h = true <-> firstn (length m) h = m.
Proof.
  revert h; induction m as [|a m IH]; intros h; simpl.
  - split; auto.
  - destruct h as [|b h]; [split; discriminate|].
    rewrite andb_true_iff, Z.eqb_eq, IH. split.
    + intros [-> ->]. reflexivity.
    + intros H. injection H as -> H. auto.
Qed.

Lemma memmem_found (h m : list Z) :
  is_some (memmem h m) = true <-> exists j, occurs_at m h j.
Proof.
  unfold occurs_at. induction h as [|b h IH]; simpl.
  - destruct (starts_with m []) eqn:Hs; simpl.
    + split; auto. intros _. exists O. now apply starts_with_spec.
    + split; [discriminate|]. intros [j Hj]. rewrite skipn_nil in Hj.
      apply starts_with_spec in Hj. congruence.
  - destruct (starts_with m (b :: h)) eqn:Hs; simpl.
    + split; auto. intros _. exists O. now apply starts_with_spec.
    + assert (He : is_some (option_map S (memmem h m)) = is_some (memmem h m))
        by (destruct (memmem h m); reflexivity).
      rewrite He, IH. split.
      * intros [j Hj]. exists (S j). exact Hj.
      * intros [[|j] Hj].
        -- apply starts_with_spec in Hj. simpl in Hj. congruence.
        -- exists j. exact Hj.
Qed.

(** An occurrence in the window [[from, from + n)] of [s] is an occurrence
    in [s] that ends inside the window. *)
Lemma occurs_in_window (m s : list Z) (from n j : nat) :
  m <> [] ->
  occurs_at m (firstn n (skipn from s)) j <->
  (j + length m <= n)%nat /\ occurs_at m s (from + j).
Proof.
  intros Hm. unfold occurs_at.
  rewrite skipn_firstn_comm, firstn_firstn, skipn_skipn.
  replace (j + from)%nat with (from + j)%nat by lia.
  destruct (Nat.le_gt_cases (j + length m) n) as [Hle|Hgt].
  - rewrite Nat.min_l by lia. intuition.
  - split; [|intros [? _]; lia]. intros H. exfalso.
    assert (0 < length m)%nat by (destruct m; simpl; [congruence|lia]).
    apply (f_equal (@length Z)) in H. rewrite length_firstn in H.
    lia.
Qed.

(** C3. For every buffer of more than 54 bytes the corruption test is true
    exactly when one of the two markers [01 00 00], [00 00 00] occurs at an
    offset [i >= 30] with its three bytes inside the buffer; an occurrence
    that starts before offset 30 does not count. *)
Theorem is_corrupted_iff_marker_from_30 (buf : list Z) (bytes_read : Z) :
  DATA_LENGTH < bytes_read ->
  (is_corrupted buf bytes_read = true <->
   exists i : nat,
     (30 <= i)%nat /\ Z.of_nat i + 3 <= bytes_read
     /\ (occurs_at marker_reset buf i \/ occurs_at marker_null buf i)).
Proof.
  intros Hlen. unfold is_corrupted.
  destruct (Z.gtb_spec bytes_read DATA_LENGTH); [|lia].
  rewrite andb_true_l. cbv zeta.
  rewrite orb_true_iff, !memmem_found.
  unfold DATA_LENGTH in *.
  split.
  - intros [[j Hj]|[j Hj]];
      apply occurs_in_window in Hj; try discriminate;
      destruct Hj as [Hb Ho]; simpl in Hb;
      exists (30 + j)%nat; (split; [lia|]); (split; [lia|]); auto.
  - intros (i & Hi & Hb & [Ho|Ho]); [left|right];
      exists (i - 30)%nat; apply occurs_in_window; try discriminate;
      replace (30 + (i - 30))%nat with i by lia; (split; [simpl; lia|auto]).
Qed.

Lemma is_corrupted_iff_marker_from_30_witness :
  DATA_LENGTH < 63
  /\ is_corrupted (repeat 65 40 ++ [0; 0; 0] ++ repeat 65 20) 63 = true.
Proof.
  split; [reflexivity|].
  apply (is_corrupted_iff_marker_from_30
           (repeat 65 40 ++ [0; 0; 0] ++ repeat 65 20) 63).
  - reflexivity.
  - exists 40%nat. split; [lia|]. split; [lia|]. right. reflexivity.
Defined.

(** A marker that starts before offset 30 is not seen, also when it ends
    after it. *)
Example marker_before_30_ignored :
  is_corrupted (repeat 65 20 ++ [1; 0; 0] ++ repeat 65 40) 63 = false
  /\ is_corrupted (repeat 65 29 ++ [0; 0; 0] ++ repeat 65 31) 63 = false.
Proof. split; vm_compute; reflexivity. Qed.

Lemma memchr_Some (s : list Z) (c : Z) (n k : nat) :
  memchr s c n = Some k ->
  (k < n)%nat /\ (k < length s)%nat /\ peek s k = c
  /\ forall i, (i < k)%nat -> peek s i <> c.
Proof.
  unfold peek. revert s k; induction n as [|n IH]; intros [|x s] k;
    simpl; try discriminate.
  destruct (Z.eqb_spec x c) as [->|Hx].
  - intros [= <-]. repeat split; try lia.
  - destruct (memchr s c n) as [k'|] eqn:Hm; simpl; [|discriminate].
    intros [= <-]. destruct (IH s k' Hm) as (H1 & H2 & H3 & H4).
    repeat split; try lia; auto.
    intros [|i] Hi; auto. apply H4. lia.
Qed.

Lemma memchr_first (pre s : list Z) (c : Z) (n : nat) :
  (forall b, In b pre -> b <> c) -> (length pre < n)%nat ->
  memchr (pre ++ c :: s) c n = Some (length pre).
Proof.
  revert n; induction pre as [|b pre IH]; intros n Hpre Hn; simpl in *.
  - destruct n; [lia|]. now rewrite Z.eqb_refl.
  - destruct n as [|n]; [lia|].
    destruct (Z.eqb_spec b c) as [->|_].
    + exfalso. apply (Hpre c); auto.
    + rewrite IH; auto. lia.
Qed.

Lemma peek_skipn (s : list Z) (k i : nat) :
  peek (skipn k s) i = peek s (k + i).
Proof.
  unfold peek. revert s; induction k as [|k IH]; intros s; simpl; auto.
  destruct s; simpl; auto. now destruct i.
Qed.

Lemma peek_firstn (s : list Z) (n i : nat) :
  (i < n)%nat -> peek (firstn n s) i = peek s i.
Proof.
  unfold peek. revert s i; induction n as [|n IH]; intros s i Hi; [lia|].
  destruct s; simpl; auto. destruct i; auto. apply IH. lia.
Qed.

Lemma peek_app_l (s t : list Z) (i : nat) :
  (i < length s)%nat -> peek (s ++ t) i = peek s i.
Proof. intros H. unfold peek. now apply app_nth1. Qed.

(** ** Counting delimiters *)

Lemma c_string_cons (c : Z) (s : list Z) :
  c_string (c :: s) = if c =? 0 then [] else c :: c_string s.
Proof. unfold c_string. simpl. now destruct (c =? 0). Qed.

Lemma star_loop_spec (s : list Z) (stars : Z) (moved : nat) :
  star_loop s stars moved =
  (stars + Z.of_nat (star_count s), (moved + strlen s)%nat).
Proof.
  unfold star_count.
  revert stars moved; induction s as [|c s IH]; intros stars moved.
  - simpl. f_equal; lia.
  - rewrite c_string_cons. simpl.
    destruct (c =? 0) eqn:Hc; simpl; [f_equal; lia|].
    rewrite IH. destruct (Z.eqb_spec c STAR) as [->|Hn].
    + destruct (Z.eq_dec STAR STAR); [|congruence]. f_equal; lia.
    + destruct (Z.eq_dec c STAR); [congruence|]. f_equal; lia.
Qed.

Lemma count_occ_firstn_le (l : list Z) (c : Z) (n : nat) :
  (count_occ Z.eq_dec (firstn n l) c <= count_occ Z.eq_dec l c)%nat.
Proof.
  revert l; induction n as [|n IH]; intros [|x l]; simpl; try lia.
  specialize (IH l). destruct (Z.eq_dec x c); lia.
Qed.

Lemma count_occ_above_prefix (l : list Z) (c : Z) (p : nat) :
  (p < length l)%nat -> peek l p = c ->
  (S (count_occ Z.eq_dec (firstn p l) c) <= count_occ Z.eq_dec l c)%nat.
Proof.
  unfold peek. revert l; induction p as [|p IH]; intros [|x l] Hp Hc;
    simpl in *; try lia.
  - destruct (Z.eq_dec x c); [lia|congruence].
  - specialize (IH l ltac:(lia) Hc). destruct (Z.eq_dec x c); lia.
Qed.

Lemma count_occ_at_offsets (c : Z) (ps : list nat) :
  forall (l : list Z) (bound : nat),
    below bound ps -> (bound <= length l)%nat ->
    (forall p, In p ps -> peek l p = c) ->
    (length ps <= count_occ Z.eq_dec (firstn bound l) c)%nat.
Proof.
  induction ps as [|p ps IH]; intros l bound Hb Hlen Hc; simpl; [lia|].
  destruct Hb as [Hp Hb].
  assert (H1 := count_occ_above_prefix (firstn bound l) c p).
  rewrite length_firstn, firstn_firstn, peek_firstn in H1 by lia.
  replace (Nat.min p bound) with p in H1 by lia.
  specialize (H1 ltac:(lia) (Hc p (or_introl eq_refl))).
  specialize (IH l p Hb ltac:(lia) (fun q Hq => Hc q (or_intror Hq))).
  lia.
Qed.

Lemma star_offsets_rules : map rule_pos rules = star_offsets.
Proof. reflexivity. Qed.

(** ** The validator *)

(** [data_done] once the first delimiter is known. *)
Lemma data_done_found (buf : list Z) (len : Z) (start : nat) :
  memchr buf STAR (Z.to_nat len) = Some start ->
  data_done buf len =
  if (len <? DATA_LENGTH) || (len - Z.of_nat start <? DATA_LENGTH)
  then (false, buf)
  else
    let data := autocorrect (skipn start buf) in
    ((7 <=? star_count data)%nat && (53 <=? strlen data)%nat,
     firstn start buf ++ data).
Proof.
  intros Hm. unfold data_done. rewrite Hm.
  destruct (len <? DATA_LENGTH); [reflexivity|]. rewrite orb_false_l.
  destruct (len - Z.of_nat start <? DATA_LENGTH); [reflexivity|].
  cbv zeta. rewrite star_loop_spec.
  set (data := autocorrect (skipn start buf)).
  rewrite Z.add_0_l, Nat.add_0_l. unfold DATA_STARS.
  destruct (Z.ltb_spec (Z.of_nat (star_count data)) (8 - 1));
    destruct (Nat.leb_spec 7 (star_count data)); try lia;
    [reflexivity|].
  rewrite andb_true_l.
  destruct (Nat.ltb_spec (strlen data) 53);
    destruct (Nat.leb_spec 53 (strlen data)); try lia; reflexivity.
Qed.

Lemma data_done_not_found (buf : list Z) (len : Z) :
  memchr buf STAR (Z.to_nat len) = None -> data_done buf len = (false, buf).
Proof.
  intros Hm. unfold data_done. rewrite Hm. now destruct (len <? DATA_LENGTH).
Qed.

(** A buffer that holds a ['*'] at each offset of the table is left alone
    by the autocorrection. *)
Lemma autocorrect_well_formed (data : list Z) :
  Forall (fun o => peek data o = STAR) star_offsets ->
  autocorrect data = data.
Proof.
  intros Hs. rewrite autocorrect_unfold. destruct (_ <=? _); auto.
  apply fold_rules_fixed. intros r Hr. left.
  destruct (rules_facts r Hr) as (_ & _ & ->).
  rewrite Forall_forall in Hs. apply Hs.
  rewrite <- star_offsets_rules. now apply in_map.
Qed.

(** The claim C1 as it is worded fails: the seven offsets of this buffer
    hold ['*'], 54 bytes follow its first delimiter, and the validator
    answers 0, because the zero byte at offset 5 ends the string the
    delimiters are counted in. *)
Lemma well_formed_offsets_with_nul_rejected :
  memchr (printout_with_nul ++ [0]) STAR 54 = Some O
  /\ length printout_with_nul = 54%nat
  /\ Forall (fun o => peek printout_with_nul o = STAR) star_offsets
  /\ fst (data_done (printout_with_nul ++ [0]) 54) = false.
Proof.
  split; [reflexivity|]. split; [reflexivity|]. split.
  - unfold star_offsets. repeat constructor.
  - vm_compute. reflexivity.
Qed.

(** C1 (amended). For every buffer that holds, from its first delimiter
    on, at least 54 bytes with a ['*'] at each of the offsets 11, 17, 24,
    29, 33, 47 and 53 and no zero byte among the first 54 of them, the
    validator returns 1 and leaves the buffer as it was, whatever the bytes
    [pre] before that delimiter and the bytes [rest] after the terminator
    are. *)
Theorem data_done_accepts_well_formed (pre payload rest : list Z) :
  (forall b, In b pre -> b <> STAR) ->
  (54 <= length payload)%nat ->
  peek payload 0 = STAR ->
  Forall (fun o => peek payload o = STAR) star_offsets ->
  (forall i, (i < 54)%nat -> peek payload i <> 0) ->
  data_done (pre ++ payload ++ 0 :: rest)
            (Z.of_nat (length pre + length payload))
  = (true, pre ++ payload ++ 0 :: rest).
Proof.
  intros Hpre Hlen H0 Hst Hnz.
  destruct payload as [|p0 payload]; [simpl in Hlen; lia|].
  unfold peek in H0; simpl in H0; subst p0.
  set (data := (STAR :: payload) ++ 0 :: rest).
  assert (Hpeek : forall i, (i < 54)%nat ->
                            peek data i = peek (STAR :: payload) i).
  { intros i Hi. apply peek_app_l. lia. }
  assert (Hst' : Forall (fun o => peek data o = STAR) star_offsets).
  { rewrite Forall_forall in *. intros o Ho. rewrite Hpeek; auto.
    unfold star_offsets in Ho. simpl in Ho. intuition lia. }
  assert (Hstr : (54 <= strlen data)%nat).
  { apply strlen_first_zero.
    - intros i Hi. rewrite Hpeek; auto.
    - unfold data. rewrite length_app. lia. }
  assert (Hcount : (8 <= star_count data)%nat).
  { unfold star_count, c_string.
    etransitivity; [|apply (count_occ_firstn_le _ _ 54)].
    rewrite firstn_firstn, Nat.min_l by lia.
    apply (count_occ_at_offsets STAR [53; 47; 33; 29; 24; 17; 11; 0]%nat).
    - simpl. lia.
    - pose proof (strlen_le_length data). lia.
    - rewrite Forall_forall in Hst'. intros p Hp. simpl in Hp.
      destruct Hp as [<-|[<-|[<-|[<-|[<-|[<-|[<-|[<-|[]]]]]]]]];
        try solve [apply Hst'; simpl; auto 10].
      reflexivity. }
  rewrite (data_done_found _ _ (length pre)).
  2: { change ((STAR :: payload) ++ 0 :: rest)
         with (STAR :: payload ++ 0 :: rest).
       apply memchr_first; auto. simpl in *. lia. }
  unfold DATA_LENGTH.
  destruct (Z.ltb_spec (Z.of_nat (length pre + length (STAR :: payload))) 54);
    [lia|].
  destruct (Z.ltb_spec (Z.of_nat (length pre + length (STAR :: payload))
                        - Z.of_nat (length pre)) 54); [lia|].
  simpl orb. cbv iota zeta.
  assert (Hsk : skipn (length pre) (pre ++ data) = data).
  { rewrite skipn_app, skipn_all, Nat.sub_diag. reflexivity. }
  assert (Hfi : firstn (length pre) (pre ++ data) = pre).
  { rewrite firstn_app, firstn_all, Nat.sub_diag. simpl. apply app_nil_r. }
  fold data. rewrite Hsk, Hfi, (autocorrect_well_formed data Hst').
  destruct (Nat.leb_spec 7 (star_count data)); [|lia].
  destruct (Nat.leb_spec 53 (strlen data)); [|lia].
  reflexivity.
Qed.

Lemma data_done_accepts_well_formed_witness :
  data_done (preamble ++ printout ++ [0]) 65
  = (true, preamble ++ printout ++ [0]).
Proof.
  apply (data_done_accepts_well_formed preamble printout []).
  - intros b Hb. vm_compute in Hb.
    repeat (destruct Hb as [<-|Hb]; [discriminate|]). contradiction.
  - vm_compute. lia.
  - reflexivity.
  - unfold star_offsets. repeat constructor.
  - intros i Hi.
    do 54 (destruct i as [|i]; [discriminate|]). lia.
Defined.

(** The claim C10 as it is worded fails at its boundary: this buffer has a
    zero byte 53 bytes after its first delimiter, and the validator answers
    1, because the seven delimiters before that byte are enough and the
    string reaches offset 53. *)
Lemma nul_at_offset_53_accepted :
  memchr printout_cut_short STAR 57 = Some O
  /\ peek printout_cut_short 53 = 0
  /\ fst (data_done printout_cut_short 57) = true.
Proof. repeat split. Qed.

(** C10 (amended). For every buffer with a zero byte at an offset between
    1 and 52 from its first delimiter, the validator returns 0, whatever
    the length and the bytes after that zero byte: the delimiters are
    counted, and the length is measured, from the first delimiter to the
    first zero byte only. *)
Theorem data_done_rejects_nul_before_53 (buf : list Z) (len : Z)
    (start j : nat) :
  memchr buf STAR (Z.to_nat len) = Some start ->
  (1 <= j <= 52)%nat ->
  (start + j < length buf)%nat ->
  peek buf (start + j) = 0 ->
  fst (data_done buf len) = false.
Proof.
  intros Hm Hj Hin Hz.
  rewrite (data_done_found _ _ _ Hm).
  destruct (_ || _); [reflexivity|]. cbv zeta. unfold fst.
  rewrite autocorrect_strlen.
  assert (Hs : (strlen (skipn start buf) <= j)%nat).
  { apply strlen_zero_at.
    - rewrite length_skipn. lia.
    - now rewrite peek_skipn. }
  destruct (Nat.leb_spec 53 (strlen (skipn start buf))); [lia|].
  apply andb_false_r.
Qed.

Lemma data_done_rejects_nul_before_53_witness :
  fst (data_done (printout_with_nul ++ [0]) 54) = false.
Proof.
  apply (data_done_rejects_nul_before_53 (printout_with_nul ++ [0]) 54 0 5).
  - reflexivity.
  - lia.
  - vm_compute. lia.
  - reflexivity.
Defined.

(** The claim C8 as it is worded fails: from its first delimiter to its
    first zero byte this buffer holds six ['*'], and the validator answers
    1, because the autocorrection that runs before the count writes two
    more. *)
Lemma six_stars_accepted_after_autocorrect :
  memchr (twice_garbled_printout ++ [0]) STAR 55 = Some O
  /\ star_count (twice_garbled_printout ++ [0]) = 6%nat
  /\ fst (data_done (twice_garbled_printout ++ [0]) 55) = true.
Proof. repeat split. Qed.

Lemma memchr_skipn_firstn (buf data : list Z) (len start : nat) :
  memchr buf STAR len = Some start ->
  skipn start (firstn start buf ++ data) = data.
Proof.
  intros Hm. apply memchr_Some in Hm. destruct Hm as (_ & Hlt & _).
  rewrite skipn_app, length_firstn, Nat.min_l by lia.
  rewrite skipn_all2 by (rewrite length_firstn; lia).
  rewrite Nat.sub_diag. reflexivity.
Qed.

(** C8 (amended). For every buffer whose string from the first delimiter
    on holds, after the autocorrection pass, fewer than 7 ['*'] before
    its first zero byte, the validator returns 0; and whenever the
    validator returns 1, the string that starts at the first delimiter of
    the buffer it leaves holds at least 7 ['*']. *)
Theorem data_done_needs_seven_stars (buf : list Z) (len : Z) :
  (forall start,
     memchr buf STAR (Z.to_nat len) = Some start ->
     (star_count (autocorrect (skipn start buf)) < 7)%nat ->
     fst (data_done buf len) = false)
  /\ (fst (data_done buf len) = true ->
      exists start,
        memchr buf STAR (Z.to_nat len) = Some start
        /\ (7 <= star_count (skipn start (snd (data_done buf len))))%nat).
Proof.
  split.
  - intros start Hm Hc. rewrite (data_done_found _ _ _ Hm).
    destruct (_ || _); [reflexivity|]. cbv zeta. unfold fst.
    destruct (Nat.leb_spec 7 (star_count (autocorrect (skipn start buf))));
      [lia|reflexivity].
  - destruct (memchr buf STAR (Z.to_nat len)) as [start|] eqn:Hm.
    + rewrite (data_done_found _ _ _ Hm).
      destruct (_ || _); [discriminate|]. cbv zeta. unfold fst, snd.
      intros H. apply andb_true_iff in H. destruct H as [H _].
      exists start. split; [reflexivity|].
      rewrite (memchr_skipn_firstn _ _ _ _ Hm).
      now apply Nat.leb_le.
    + rewrite (data_done_not_found _ _ Hm). discriminate.
Qed.

Lemma data_done_needs_seven_stars_witness :
  fst (data_done (terminated noisy_printout) 56) = false
  /\ (7 <= star_count (skipn 0 (snd (data_done (terminated printout) 54))))%nat.
Proof.
  split.
  - apply (proj1 (data_done_needs_seven_stars _ 56) O).
    + reflexivity.
    + vm_compute. lia.
  - destruct (proj2 (data_done_needs_seven_stars (terminated printout) 54))
      as (start & Hm & Hc).
    + reflexivity.
    + vm_compute in Hm. injection Hm as <-. exact Hc.
Defined.

(** ** The read loop *)

Lemma to_int_small (x : Z) : - 2 ^ 31 <= x < 2 ^ 31 -> to_int x = x.
Proof.
  intros H. unfold to_int. rewrite Z.mod_small; lia.
Qed.

(** [read] returns at most [count] bytes, and what is left to arrive gets
    lighter when it returns some. *)
Lemma sys_read_bounds (count : Z) (net0 : list arrival) r got net' :
  sys_read count net0 = (r, got, net') ->
  -1 <= r
  /\ (r <= 0 -> got = [])
  /\ (0 < r ->
      r <= count /\ r = Z.of_nat (length got)
      /\ (weight net' < weight net0)%nat).
Proof.
  unfold sys_read. destruct net0 as [|[b more|] net0].
  - intros [= <- <- <-]. repeat split; lia.
  - destruct (Z.leb_spec count 0).
    + intros [= <- <- <-]. repeat split; lia.
    + intros [= <- <- <-]. split; [lia|].
      split; [cbn [length firstn]; rewrite length_firstn;
              cbn [length]; lia|].
      intros _.
      rewrite length_firstn. split; [lia|]. split; [reflexivity|].
      pose proof (length_skipn (Z.to_nat count) (b :: more)) as Hsk.
      destruct (skipn (Z.to_nat count) (b :: more)) as [|x rest];
        cbn [weight length] in *; lia.
  - intros [= <- <- <-]. repeat split; lia.
Qed.

Lemma store_at_length (p : nat) (got arr : list Z) :
  (p + length got <= length arr)%nat ->
  length (store_at p got arr) = length arr.
Proof.
  intros H. unfold store_at.
  rewrite !length_app, length_firstn, length_skipn. lia.
Qed.

Lemma data_done_length (b : list Z) (len : Z) :
  length (snd (data_done b len)) = length b.
Proof.
  destruct (memchr b STAR (Z.to_nat len)) as [start|] eqn:Hm.
  - rewrite (data_done_found _ _ _ Hm).
    destruct (_ || _); [reflexivity|]. cbv zeta. unfold snd.
    apply memchr_Some in Hm. destruct Hm as (_ & Hlt & _).
    rewrite length_app, length_firstn, autocorrect_length, length_skipn.
    lia.
  - now rewrite (data_done_not_found _ _ Hm).
Qed.

(** The terminator the loop stores after the bytes received lies inside the
    array, so that the scans of [data_done] stop at it or before it. *)
Lemma terminator_stored (p : nat) (got arr : list Z) :
  (p + length got < length arr)%nat ->
  let arr' := poke (p + length got) 0 (store_at p got arr) in
  peek arr' (p + length got) = 0
  /\ forall start, (start <= p + length got)%nat ->
       (strlen (skipn start arr') <= p + length got - start)%nat.
Proof.
  intros H arr'.
  assert (Hlen : length arr' = length arr).
  { unfold arr'. rewrite poke_length, store_at_length; lia. }
  assert (Hz : peek arr' (p + length got) = 0).
  { unfold arr'. apply peek_poke_same. rewrite store_at_length; lia. }
  split; [exact Hz|].
  intros start Hs. apply strlen_zero_at.
  - rewrite length_skipn. lia.
  - rewrite peek_skipn. replace (start + (p + length got - start))%nat
      with (p + length got)%nat by lia. exact Hz.
Qed.

(** What the first part of a pass does to the variables. *)
Lemma look_spec (s : session) found v' net' log' :
  in_bounds (vars s) ->
  look s = (found, v', net', log') ->
  (exists r,
     log' = log s ++ [EvRead (511 - bytes_read (vars s)) r]
     /\ r <= 511 - bytes_read (vars s)
     /\ (found = Nothing -> r <= 0)
     /\ (found <> Nothing -> bytes_read v' = bytes_read (vars s) + r /\ 0 < r))
  /\ (found = Nothing -> v' = vars s)
  /\ (found <> Nothing ->
      in_bounds v' /\ 0 < bytes_read v'
      /\ success v' = success (vars s) /\ reset v' = reset (vars s)
      /\ (weight net' < weight (net s))%nat)
  /\ (found = Valid ->
      exists b, data_done b (bytes_read v') = (true, buf v')).
Proof.
  intros (Hlen & Hbr & Hpos & Hleft). unfold look.
  destruct (sys_read ((left (vars s) - 1) mod 2 ^ 64) (net s))
    as [[r got] net''] eqn:Hread.
  assert (Hcount : (left (vars s) - 1) mod 2 ^ 64 = 511 - bytes_read (vars s)).
  { rewrite Hleft. rewrite Z.mod_small; lia. }
  rewrite Hcount in *.
  destruct (sys_read_bounds _ _ _ _ _ Hread) as (Hlo & _ & Hhi).
  assert (Hr : r <= 511 - bytes_read (vars s)) by lia.
  rewrite (to_int_small r) by lia.
  destruct (Z.leb_spec r 0) as [Hle|Hgt].
  - intros [= <- <- <- <-].
    split; [exists r; repeat split; auto; congruence|].
    repeat split; congruence.
  - destruct (Hhi Hgt) as (Hrc & Hgot & Hw).
    set (br := bytes_read (vars s) + r).
    set (buf2 := poke (Z.to_nat br) 0 (store_at (pos (vars s)) got (buf (vars s)))).
    assert (Hlen2 : length buf2 = 512%nat).
    { unfold buf2. rewrite poke_length, store_at_length; lia. }
    pose proof (data_done_length buf2 br) as Hlen3.
    destruct (data_done buf2 br) as [done buf3] eqn:Hdd. simpl in Hlen3.
    assert (Hleft' : (left (vars s) - r) mod 2 ^ 64 = 512 - br).
    { rewrite Hleft. unfold br. rewrite Z.mod_small; lia. }
    rewrite Hleft'.
    assert (Hb : in_bounds
                   (HState buf3 (pos (vars s) + Z.to_nat r) br (512 - br)
                      (success (vars s)) (reset (vars s)))).
    { unfold in_bounds; simpl. unfold br. repeat split; lia. }
    destruct done; [|destruct (is_corrupted buf3 br)];
      intros [= <- <- <- <-]; simpl;
      (split; [exists r; repeat split; auto; try discriminate; lia|]);
      (split; [discriminate|]);
      (split; [intros _; repeat split; try apply Hb; unfold br; lia|]);
      try discriminate.
    intros _. exists buf2. exact Hdd.
Qed.

Lemma fresh_buf_length (junk : list Z) : length (fresh_buf junk) = 512%nat.
Proof.
  unfold fresh_buf. rewrite length_firstn, length_app, repeat_length. lia.
Qed.

Lemma start_sound (junk : list Z) (net0 : list arrival) :
  sound (start junk net0).
Proof.
  unfold sound, in_bounds; simpl. rewrite fresh_buf_length.
  repeat split; auto; try lia.
  - right. split; [discriminate|auto].
  - discriminate.
Qed.

Lemma forallb_is_read_snoc (l : list event) (count r : Z) :
  forallb is_read l = true -> forallb is_read (l ++ [EvRead count r]) = true.
Proof. intros H. rewrite forallb_app, H. reflexivity. Qed.

(** Closes the conjuncts of [sound] from the bounds [Hb] in hand. *)
Ltac settle Hb :=
  repeat split; auto; try apply Hb; try lia; try congruence;
  try discriminate;
  try solve [right; split;
             [discriminate | first [lia | congruence | auto]]];
  try solve [left; split; [reflexivity | lia]].

Lemma iteration_sound (s : session) : sound s -> sound (iteration s).
Proof.
  intros Hs. unfold iteration.
  destruct (stage s) eqn:Hst; auto.
  destruct Hs as (Hb & Hreset & Hsucc & Hlog & _).
  rewrite Hst in *.
  destruct Hreset as [[? _]|[_ Hreset]]; [discriminate|].
  destruct (look s) as [[[found v'] net'] log'] eqn:Hl.
  destruct (look_spec _ _ _ _ _ Hb Hl) as ((r & -> & _) & Hno & Hyes & Hval).
  pose proof (forallb_is_read_snoc _ (511 - bytes_read (vars s)) r Hlog)
    as Hlog'.
  unfold sound.
  destruct found.
  - rewrite (Hno eq_refl). simpl. settle Hb.
  - destruct (Hyes ltac:(discriminate)) as (Hb' & _ & Hs' & Hr' & _).
    simpl. settle Hb'.
  - destruct (Hyes ltac:(discriminate)) as (Hb' & _ & Hs' & Hr' & _).
    destruct (Z.eqb_spec (reset v' + 1) 2) as [He|Hne]; simpl.
    + settle Hb'.
    + unfold in_bounds; simpl. settle Hb'.
  - destruct (Hyes ltac:(discriminate)) as (Hb' & _ & Hs' & Hr' & _).
    simpl. settle Hb'.
Qed.

Lemma run_sound (junk : list Z) (net0 : list arrival) (n : nat) :
  sound (run n (start junk net0)).
Proof.
  induction n as [|n IH]; [apply start_sound|].
  unfold run in *. simpl. now apply iteration_sound.
Qed.

(** C9. After any number of passes through the read loop the array still
    has its 512 bytes and the fill length is between 0 and 511, with [pos]
    at that offset and [left] the rest of the capacity; so the index at
    which the terminator is stored is inside the array, and whatever the
    next [read] returns, the bytes it stores end at offset 511 at most. *)
Theorem fill_length_stays_below_capacity (junk : list Z)
    (net0 : list arrival) (n : nat) :
  let s := run n (start junk net0) in
  let v := vars s in
  length (buf v) = 512%nat
  /\ 0 <= bytes_read v <= 511
  /\ pos v = Z.to_nat (bytes_read v)
  /\ left v = 512 - bytes_read v
  /\ (Z.to_nat (bytes_read v) < length (buf v))%nat
  /\ forall r got net',
       sys_read ((left v - 1) mod 2 ^ 64) (net s) = (r, got, net') ->
       r <= left v - 1
       /\ bytes_read v + to_int r <= 511
       /\ (pos v + length got <= 511)%nat.
Proof.
  intros s v.
  destruct (run_sound junk net0 n) as ((Hlen & Hbr & Hpos & Hleft) & _).
  fold s in Hlen, Hbr, Hpos, Hleft. fold v in Hlen, Hbr, Hpos, Hleft.
  repeat split; auto; try lia.
  all: rewrite Hleft in H; rewrite Z.mod_small in H by lia;
    destruct (sys_read_bounds _ _ _ _ _ H) as (Hlo & Hnil & Hhi);
    destruct (Z.leb_spec r 0) as [Hle|Hgt].
  - lia.
  - destruct (Hhi Hgt) as (? & _). lia.
  - rewrite to_int_small; lia.
  - destruct (Hhi Hgt) as (? & _). rewrite to_int_small; lia.
  - rewrite (Hnil Hle). simpl. lia.
  - destruct (Hhi Hgt) as (? & ? & _). lia.
Qed.

Lemma fill_length_stays_below_capacity_witness :
  bytes_read (vars (run 1 (start [] flood))) = 511
  /\ sys_read 0 (net (run 1 (start [] flood)))
     = (0, [], [Data 65 (repeat 65 89)])
  /\ 511 + to_int 0 <= 511.
Proof.
  split; [vm_compute; reflexivity|].
  split; [vm_compute; reflexivity|].
  destruct (fill_length_stays_below_capacity [] flood 1)
    as (_ & _ & _ & _ & _ & H).
  destruct (H 0 [] [Data 65 (repeat 65 89)]) as (_ & Hb & _).
  - vm_compute. reflexivity.
  - exact Hb.
Defined.

(** ** Corruption and the reset counter *)

Lemma iteration_exited (s : session) :
  stage s <> ACCUMULATING -> iteration s = s.
Proof. unfold iteration. destruct (stage s); congruence. Qed.

(** C2. At every point of every session the stage is [ABORTED] exactly
    when the reset counter is 2, and the counter never leaves [0, 2]; an
    aborted session has no success.  A pass that finds the mark of
    corruption while the counter is 0 sets the fill length back to zero,
    makes the counter 1 and stays in the loop; one that finds it while the
    counter is 1 makes the counter 2 and leaves the loop as [ABORTED]; and
    no other pass changes the counter. *)
Theorem aborted_exactly_at_second_reset (junk : list Z)
    (net0 : list arrival) (n : nat) :
  let s := run n (start junk net0) in
  let s' := iteration s in
  (stage s = ABORTED <-> reset (vars s) = 2)
  /\ 0 <= reset (vars s) <= 2
  /\ (stage s = ABORTED -> success (vars s) = 0)
  /\ (stage s = ACCUMULATING -> found_by s = Corrupt ->
      reset (vars s) = 0 ->
      stage s' = ACCUMULATING /\ reset (vars s') = 1
      /\ bytes_read (vars s') = 0 /\ left (vars s') = 512
      /\ pos (vars s') = O)
  /\ (stage s = ACCUMULATING -> found_by s = Corrupt ->
      reset (vars s) = 1 ->
      stage s' = ABORTED /\ reset (vars s') = 2 /\ success (vars s') = 0)
  /\ (stage s <> ACCUMULATING \/ found_by s <> Corrupt ->
      reset (vars s') = reset (vars s)).
Proof.
  intros s s'.
  destruct (run_sound junk net0 n) as (Hb & Hreset & Hsucc & _).
  fold s in Hb, Hreset, Hsucc.
  split; [|split; [|split]].
  - destruct Hreset as [[? ?]|[? ?]]; split; intros; auto; try lia.
    contradiction.
  - destruct Hreset as [[? ?]|[? ?]]; lia.
  - intros Ha. rewrite Hsucc, Ha. reflexivity.
  - assert (Hcases :
        stage s = ACCUMULATING ->
        forall found v' net' log',
          look s = (found, v', net', log') ->
          reset v' = reset (vars s) /\ success v' = success (vars s)).
    { intros _ found v' net' log' Hl.
      destruct (look_spec _ _ _ _ _ Hb Hl) as (_ & Hno & Hyes & _).
      destruct found; try (rewrite (Hno eq_refl); auto; fail);
        destruct (Hyes ltac:(discriminate)) as (_ & _ & ? & ? & _); auto. }
    unfold s', found_by, iteration.
    destruct (look s) as [[[found v'] net'] log'] eqn:Hl. simpl fst.
    split; [|split].
    + intros Hst -> H0. rewrite Hst.
      destruct (Hcases Hst _ _ _ _ eq_refl) as [Hr Hs].
      destruct (Z.eqb_spec (reset v' + 1) 2); simpl; [lia|].
      repeat split; lia.
    + intros Hst -> H1. rewrite Hst.
      destruct (Hcases Hst _ _ _ _ eq_refl) as [Hr Hs].
      destruct (Z.eqb_spec (reset v' + 1) 2); simpl; [|lia].
      repeat split; try lia. rewrite Hs, Hsucc, Hst. reflexivity.
    + intros H. destruct (stage s) eqn:Hst; auto.
      destruct H as [H|H]; [congruence|].
      destruct (Hcases eq_refl _ _ _ _ eq_refl) as [Hr Hs].
      destruct found; simpl; auto; congruence.
Qed.

Lemma aborted_exactly_at_second_reset_witness :
  stage (run 1 (start [] corrupted_twice)) = ACCUMULATING
  /\ found_by (run 1 (start [] corrupted_twice)) = Corrupt
  /\ reset (vars (run 1 (start [] corrupted_twice))) = 1
  /\ stage (run 2 (start [] corrupted_twice)) = ABORTED
  /\ reset (vars (run 2 (start [] corrupted_twice))) = 2
  /\ success (vars (run 2 (start [] corrupted_twice))) = 0.
Proof.
  assert (H1 : stage (run 1 (start [] corrupted_twice)) = ACCUMULATING)
    by (vm_compute; reflexivity).
  assert (H2 : found_by (run 1 (start [] corrupted_twice)) = Corrupt)
    by (vm_compute; reflexivity).
  assert (H3 : reset (vars (run 1 (start [] corrupted_twice))) = 1)
    by (vm_compute; reflexivity).
  split; [exact H1|]. split; [exact H2|]. split; [exact H3|].
  destruct (aborted_exactly_at_second_reset [] corrupted_twice 1)
    as (_ & _ & _ & _ & H & _).
  exact (H H1 H2 H3).
Defined.

(** ** The end of the session *)

Lemma run_exited (n : nat) (s : session) :
  stage s <> ACCUMULATING -> run n s = s.
Proof.
  intros H. unfold run. induction n as [|n IH]; simpl; auto.
  rewrite IH. now apply iteration_exited.
Qed.

Lemma run_succ (n : nat) (s : session) :
  run (S n) s = run n (iteration s).
Proof. unfold run. apply Nat.iter_succ_r. Qed.

(** A pass that stays in the loop has taken something from the
    connection. *)
Lemma iteration_consumes (s : session) :
  sound s -> stage s = ACCUMULATING ->
  stage (iteration s) = ACCUMULATING ->
  (weight (net (iteration s)) < weight (net s))%nat.
Proof.
  intros (Hb & _) Hst. unfold iteration. rewrite Hst.
  destruct (look s) as [[[found v'] net'] log'] eqn:Hl.
  destruct (look_spec _ _ _ _ _ Hb Hl) as (_ & _ & Hyes & _).
  destruct found; simpl; try discriminate.
  - destruct (reset v' + 1 =? 2); simpl; [discriminate|].
    intros _. apply Hyes. discriminate.
  - intros _. apply Hyes. discriminate.
Qed.

(** The loop ends: [session_fuel] passes are enough. *)
Lemma run_exits (n : nat) :
  forall s, sound s -> (weight (net s) < n)%nat ->
            stage (run n s) <> ACCUMULATING.
Proof.
  induction n as [|n IH]; intros s Hs Hw; [lia|].
  destruct (stage s) eqn:Hst;
    try (rewrite run_exited; congruence).
  rewrite run_succ.
  destruct (stage (iteration s)) eqn:Hst';
    try (rewrite run_exited; congruence).
  apply IH; [now apply iteration_sound|].
  pose proof (iteration_consumes s Hs Hst Hst'). lia.
Qed.

Lemma pick_name_events dir exists_ tries :
  forallb is_persistence (snd (pick_name dir exists_ tries)) = true.
Proof.
  induction tries as [|[t r] tries IH]; simpl; auto.
  destruct (exists_ _); simpl; auto.
  destruct (pick_name dir exists_ tries) as [found evs]. simpl in *. auto.
Qed.

Lemma write_out_events dsk filename b len :
  forallb is_persistence (snd (write_out dsk filename b len)) = true.
Proof.
  unfold write_out. destruct (_ <? 0); simpl; auto.
  destruct (negb _); reflexivity.
Qed.

Lemma save_data_events cfg dsk b len success_ :
  forallb is_persistence (snd (save_data cfg dsk b len success_)) = true.
Proof.
  unfold save_data. destruct (negb _).
  - destruct (memchr b STAR (Z.to_nat len)); simpl; auto.
    pose proof (write_out_events dsk
      (snprintf 684
         (c_string (outputdir cfg) ++ bytes "/" ++ fmt_lu (now dsk)
          ++ bytes "_" ++ c_string_prec 10 (skipn (S n) b) ++ bytes ".txt"))
      b len) as H.
    destruct (write_out _ _ _ _) as [r evs]. simpl in *. exact H.
  - pose proof (pick_name_events (outputdir cfg) (taken dsk) (attempts dsk))
      as Hp.
    destruct (pick_name _ _ _) as [[filename|] evs]; simpl in *; auto.
    pose proof (write_out_events dsk filename b len) as H.
    destruct (write_out _ _ _ _) as [r evs']. simpl in *.
    rewrite forallb_app, Hp, H. reflexivity.
Qed.

(** C7. Every session comes to an end, and in the system calls of a
    session that has ended, whatever its outcome, the [close] of the
    connection comes after the reads and before every call of [save_data]
    (the derivation of the file name, [open], [write], [close] of the
    file); without [-f] there is none of the latter. *)
Theorem socket_closed_before_persistence (cfg : config) (dsk : disk)
    (junk : list Z) (net0 : list arrival) :
  (exists r, handler cfg dsk junk net0 (session_fuel net0) = Some r)
  /\ forall fuel r,
       handler cfg dsk junk net0 fuel = Some r ->
       outcome r <> ACCUMULATING
       /\ exists reads persisted,
            effects r = reads ++ EvCloseSocket :: persisted
            /\ forallb is_read reads = true
            /\ forallb is_persistence persisted = true
            /\ (log_to_file cfg = false -> persisted = []).
Proof.
  split.
  - unfold handler.
    pose proof (run_exits (session_fuel net0) (start junk net0)
                  (start_sound junk net0)) as H.
    specialize (H ltac:(unfold session_fuel; simpl; lia)).
    destruct (stage (run (session_fuel net0) (start junk net0)));
      try congruence; eexists; reflexivity.
  - intros fuel r. unfold handler.
    destruct (run_sound junk net0 fuel) as (_ & _ & _ & Hlog & _).
    set (s := run fuel (start junk net0)) in *.
    assert (He : stage s <> ACCUMULATING -> Some (epilogue cfg dsk s) = Some r ->
                 outcome r <> ACCUMULATING
                 /\ exists reads persisted,
                      effects r = reads ++ EvCloseSocket :: persisted
                      /\ forallb is_read reads = true
                      /\ forallb is_persistence persisted = true
                      /\ (log_to_file cfg = false -> persisted = [])).
    { intros Hst [= <-]. unfold epilogue.
      destruct (log_to_file cfg).
      - pose proof (save_data_events cfg dsk (buf (vars s))
                      (bytes_read (vars s)) (success (vars s))) as Hp.
        destruct (save_data _ _ _ _ _) as [res evs]. simpl in *.
        split; auto. exists (log s), evs.
        rewrite <- app_assoc. repeat split; auto. discriminate.
      - simpl. split; auto. exists (log s), []. repeat split; auto. }
    destruct (stage s); try discriminate; apply He; discriminate.
Qed.

Lemma socket_closed_before_persistence_witness :
  exists reads persisted,
    effects_of (handler sample_config sample_disk [] corrupted_twice 2)
    = reads ++ EvCloseSocket :: persisted
    /\ forallb is_read reads = true
    /\ forallb is_persistence persisted = true.
Proof.
  destruct (handler sample_config sample_disk [] corrupted_twice 2)
    as [r|] eqn:Hr; [|vm_compute in Hr; discriminate Hr].
  destruct (proj2 (socket_closed_before_persistence
                     sample_config sample_disk [] corrupted_twice) 2%nat r Hr)
    as (_ & reads & persisted & He & H1 & H2 & _).
  exists reads, persisted. simpl. auto.
Defined.

(** ** The file name of a successful session *)

Lemma memchr_intro (s : list Z) (c : Z) (n k : nat) :
  (k < n)%nat -> (k < length s)%nat -> peek s k = c ->
  (forall i, (i < k)%nat -> peek s i <> c) ->
  memchr s c n = Some k.
Proof.
  unfold peek. revert s n; induction k as [|k IH]; intros [|x s] [|n];
    simpl; intros Hn Hl Hk Hbefore; try lia.
  - subst x. now rewrite Z.eqb_refl.
  - destruct (Z.eqb_spec x c) as [->|_].
    + exfalso. apply (Hbefore O); [lia|reflexivity].
    + rewrite (IH s n); auto; try lia.
      intros i Hi. apply (Hbefore (S i)). lia.
Qed.

Lemma autocorrect_keeps_first (d : list Z) :
  peek (autocorrect d) 0 = peek d 0.
Proof.
  rewrite autocorrect_unfold. destruct (_ <=? _); auto.
  apply fold_rules_other. intros r Hr.
  destruct (rules_facts r Hr). lia.
Qed.

(** What a call of [data_done] that returned 1 has left in the array: the
    first delimiter where it was, and a string of 53 characters or more
    from it on. *)
Lemma data_done_accepted (b b' : list Z) (len : Z) :
  data_done b len = (true, b') ->
  exists start,
    memchr b' STAR (Z.to_nat len) = Some start
    /\ (53 <= strlen (skipn start b'))%nat.
Proof.
  destruct (memchr b STAR (Z.to_nat len)) as [start|] eqn:Hm.
  2: { rewrite (data_done_not_found _ _ Hm). discriminate. }
  rewrite (data_done_found _ _ _ Hm).
  destruct (_ || _); [discriminate|]. cbv zeta.
  intros H. apply pair_equal_spec in H. destruct H as [Hok <-].
  apply andb_true_iff in Hok. destruct Hok as [_ Hs].
  apply Nat.leb_le in Hs.
  exists start. rewrite (memchr_skipn_firstn _ _ _ _ Hm). split; auto.
  destruct (memchr_Some _ _ _ _ Hm) as (Hn & Hl & Hk & Hbefore).
  assert (Hfl : length (firstn start b) = start)
    by (rewrite length_firstn; lia).
  apply memchr_intro; auto.
  - rewrite length_app, Hfl, autocorrect_length, length_skipn. lia.
  - unfold peek. rewrite app_nth2 by lia. rewrite Hfl, Nat.sub_diag.
    fold (peek (autocorrect (skipn start b)) 0).
    rewrite autocorrect_keeps_first, peek_skipn, Nat.add_0_r. exact Hk.
  - intros i Hi. rewrite peek_app_l by lia. rewrite peek_firstn by lia.
    now apply Hbefore.
Qed.

Lemma digits_rev_length (n : nat) (v : Z) :
  (length (digits_rev n v) <= n)%nat.
Proof.
  revert v; induction n as [|n IH]; intros v; simpl; [lia|].
  destruct (v <? 10); simpl; [lia|]. specialize (IH (v / 10)). lia.
Qed.

Lemma fmt_lu_length (v : Z) : (length (fmt_lu v) <= 20)%nat.
Proof. unfold fmt_lu. rewrite length_rev. apply digits_rev_length. Qed.

(** The ten characters [%.*s] prints when the string is long enough. *)
Lemma c_string_prec_full (n : nat) (t : list Z) :
  (n <= strlen t)%nat ->
  c_string_prec n t = firstn n t /\ length (firstn n t) = n.
Proof.
  intros H. unfold c_string_prec, c_string.
  rewrite firstn_firstn, Nat.min_l by lia. split; auto.
  pose proof (strlen_le_length t). rewrite length_firstn. lia.
Qed.

Lemma strlen_skipn_1 (d : list Z) :
  (strlen d - 1 <= strlen (skipn 1 d))%nat.
Proof.
  destruct d as [|c d]; simpl; [lia|]. destruct (c =? 0); simpl; lia.
Qed.

(** The claim C6 as it is worded fails where it calls the field digits:
    this session ends in [SUCCESS] and the field of its file name is
    [ABCDEFGHIJ], the bytes received after the first delimiter. *)
Lemma filename_field_need_not_be_digits :
  exists r,
    handler sample_config sample_disk [] lettered_call 1 = Some r
    /\ outcome r = SUCCESS
    /\ In (EvFilename (bytes "printouts/1700000000_ABCDEFGHIJ.txt"))
          (effects r)
    /\ forallb isdigit (bytes "ABCDEFGHIJ") = false.
Proof.
  eexists. split; [vm_compute; reflexivity|].
  split; [reflexivity|]. split; [|reflexivity].
  simpl. right. right. left. reflexivity.
Qed.

(** C6 (amended). For every session that ends with outcome [SUCCESS] and
    has persistence enabled, the file name derived is the output
    directory, ["/"], the capture time in decimal, ["_"], a field, and
    [".txt"], where the field is the 10 bytes that follow the first
    delimiter of the final buffer: exactly 10 characters, copied as they
    were received (nothing is padded, and nothing makes them digits). *)
Theorem filename_embeds_ten_bytes_after_delimiter (cfg : config)
    (dsk : disk) (junk : list Z) (net0 : list arrival) (fuel : nat)
    (r : result) :
  log_to_file cfg = true ->
  (length (outputdir cfg) <= 511)%nat ->
  handler cfg dsk junk net0 fuel = Some r ->
  outcome r = SUCCESS ->
  exists start field,
    memchr (buf (final r)) STAR (Z.to_nat (bytes_read (final r))) = Some start
    /\ field = firstn 10 (skipn (S start) (buf (final r)))
    /\ length field = 10%nat
    /\ In (EvFilename (c_string (outputdir cfg) ++ bytes "/"
                       ++ fmt_lu (now dsk) ++ bytes "_"
                       ++ field ++ bytes ".txt"))
          (effects r).
Proof.
  intros Hlog Hdir. unfold handler.
  destruct (run_sound junk net0 fuel) as (_ & _ & Hsucc & _ & Hacc).
  set (s := run fuel (start junk net0)) in *.
  assert (He : Some (epilogue cfg dsk s) = Some r -> outcome r = SUCCESS ->
    exists start field,
      memchr (buf (final r)) STAR (Z.to_nat (bytes_read (final r)))
        = Some start
      /\ field = firstn 10 (skipn (S start) (buf (final r)))
      /\ length field = 10%nat
      /\ In (EvFilename (c_string (outputdir cfg) ++ bytes "/"
                         ++ fmt_lu (now dsk) ++ bytes "_"
                         ++ field ++ bytes ".txt"))
            (effects r)).
  { intros [= <-]. unfold epilogue. rewrite Hlog.
    destruct (save_data cfg dsk (buf (vars s)) (bytes_read (vars s))
                (success (vars s))) as [res evs] eqn:Hsave.
    simpl. intros Hst. rewrite Hst in Hsucc.
    destruct (Hacc Hst) as (b & Hdd).
    destruct (data_done_accepted _ _ _ Hdd) as (start & Hm & Hs).
    exists start, (firstn 10 (skipn (S start) (buf (vars s)))).
    assert (Ht : (10 <= strlen (skipn (S start) (buf (vars s))))%nat).
    { pose proof (strlen_skipn_1 (skipn start (buf (vars s)))) as H1.
      rewrite skipn_skipn in H1.
      change (1 + start)%nat with (S start) in H1. lia. }
    destruct (c_string_prec_full 10 _ Ht) as [Hprec Hlen].
    repeat split; auto.
    unfold save_data in Hsave. rewrite Hsucc, Hm in Hsave. simpl negb in Hsave.
    cbv iota zeta in Hsave. rewrite Hprec in Hsave.
    destruct (write_out dsk _ (buf (vars s)) (bytes_read (vars s)))
      as [res' evs'] eqn:Hw in Hsave.
    injection Hsave as _ <-.
    apply in_or_app. right. left. f_equal.
    unfold snprintf. apply firstn_all2.
    pose proof (fmt_lu_length (now dsk)).
    assert (length (c_string (outputdir cfg)) <= 511)%nat.
    { unfold c_string. rewrite length_firstn. lia. }
    repeat (rewrite length_app; cbn [length]). rewrite Hlen.
    change (length (bytes ".txt")) with 4%nat. lia. }
  destruct (stage s); try discriminate; exact He.
Qed.

Lemma filename_embeds_ten_bytes_after_delimiter_witness :
  exists r,
    handler sample_config sample_disk [] good_call 2 = Some r
    /\ outcome r = SUCCESS
    /\ In (EvFilename (bytes "printouts/1700000000_3115552368.txt"))
          (effects r).
Proof.
  destruct (handler sample_config sample_disk [] good_call 2) as [r|] eqn:Hr;
    [|vm_compute in Hr; discriminate Hr].
  assert (Ho : outcome r = SUCCESS).
  { vm_compute in Hr. injection Hr as <-. reflexivity. }
  exists r. split; [reflexivity|]. split; [exact Ho|].
  destruct (filename_embeds_ten_bytes_after_delimiter
              sample_config sample_disk [] good_call 2 r)
    as (start & field & Hm & Hf & _ & Hin); auto.
  - vm_compute. lia.
  - assert (Hb : buf (final r) = fresh_buf (preamble ++ printout))
      by (vm_compute in Hr; injection Hr as <-; vm_compute; reflexivity).
    assert (Hn : bytes_read (final r) = 65)
      by (vm_compute in Hr; injection Hr as <-; reflexivity).
    rewrite Hb, Hn in Hm. vm_compute in Hm. injection Hm as <-.
    rewrite Hb in Hf. vm_compute in Hf. subst field. exact Hin.
Defined.

(** * Further properties of the validator *)

Lemma peek_app_r (s t : list Z) (j : nat) :
  (length s <= j)%nat -> peek (s ++ t) j = peek t (j - length s).
Proof. intros H. unfold peek. now apply app_nth2. Qed.

Lemma rules_left_isdigit (r : rule) : In r rules -> rule_condl r = isdigit.
Proof.
  intros H; simpl in H.
  repeat (destruct H as [<-|H]; [reflexivity|]). contradiction.
Qed.

(** Where the pass changes a byte: at an offset of the table, inside a
    string of more than 54 characters, after a digit, from something else
    than ['*'] to ['*']. *)
Lemma autocorrect_changes (d : list Z) (j : nat) :
  peek (autocorrect d) j = peek d j
  \/ (In j star_offsets /\ (54 < strlen d)%nat /\ peek d j <> STAR
      /\ peek (autocorrect d) j = STAR
      /\ isdigit (peek d (j - 1)) = true).
Proof.
  rewrite autocorrect_unfold.
  destruct (Z.leb_spec (Z.of_nat (strlen d)) DATA_LENGTH) as [Hs|Hs];
    [left; reflexivity|].
  unfold DATA_LENGTH in Hs.
  destruct (in_dec Nat.eq_dec j star_offsets) as [Hin|Hout].
  - pose proof Hin as Hin'.
    rewrite <- star_offsets_rules in Hin'.
    apply in_map_iff in Hin'. destruct Hin' as (r & <- & Hr).
    destruct (rules_facts r Hr) as (Hpos & Hlt & Hc).
    pose proof (strlen_le_length d) as Hle.
    unfold fixups.
    rewrite fold_rules_at by (auto using rules_spaced; lia).
    unfold corrected. rewrite Hc, (rules_left_isdigit r Hr).
    destruct (Z.eqb_spec (peek d (rule_pos r)) STAR) as [He|Hne];
      simpl; [left; reflexivity|].
    destruct (isdigit (peek d (rule_pos r - 1))) eqn:Hd;
      simpl; [|left; reflexivity].
    destruct (rule_condr r (peek d (rule_pos r + 1)));
      [|left; reflexivity].
    right. repeat split; auto. lia.
  - left. apply fold_rules_other. intros r Hr Heq. apply Hout.
    rewrite <- star_offsets_rules, <- Heq. now apply in_map.
Qed.

Lemma star_offsets_below_54 (o : nat) : In o star_offsets -> (o < 54)%nat.
Proof.
  unfold star_offsets. simpl. intros H.
  repeat (destruct H as [<-|H]; [lia|]). contradiction.
Qed.

(** A list that differs from another only where it holds ['*'] has at
    least as many of them. *)
Lemma count_occ_more_stars (l l' : list Z) :
  length l = length l' ->
  (forall j, (j < length l)%nat -> peek l' j = peek l j \/ peek l' j = STAR) ->
  (count_occ Z.eq_dec l STAR <= count_occ Z.eq_dec l' STAR)%nat.
Proof.
  unfold peek. revert l'; induction l as [|x l IH]; intros [|y l'] Hlen H;
    simpl in *; try lia.
  assert (Hrec : (count_occ Z.eq_dec l STAR <= count_occ Z.eq_dec l' STAR)%nat).
  { apply IH; [lia|]. intros j Hj. apply (H (S j)). lia. }
  destruct (H O ltac:(lia)) as [Hy|Hy]; simpl in Hy; subst y.
  - destruct (Z.eq_dec x STAR); lia.
  - destruct (Z.eq_dec STAR STAR); [|congruence].
    destruct (Z.eq_dec x STAR); lia.
Qed.

Lemma autocorrect_star_count (d : list Z) :
  (star_count d <= star_count (autocorrect d))%nat.
Proof.
  unfold star_count, c_string. rewrite autocorrect_strlen.
  apply count_occ_more_stars.
  - rewrite !length_firstn, autocorrect_length. reflexivity.
  - intros j Hj. rewrite length_firstn in Hj.
    rewrite !peek_firstn by lia.
    destruct (autocorrect_changes d j) as [H|(_ & _ & _ & H & _)]; auto.
Qed.

(** X1. The autocorrection pass keeps the size of the array and the length
    of the string, never takes a delimiter away, and changes a byte only at
    one of the seven offsets, only in a string of more than 54 characters,
    only to ['*'] and only when the byte before it is a digit. *)
Theorem autocorrect_only_writes_stars_after_digits (data : list Z)
    (j : nat) :
  length (autocorrect data) = length data
  /\ strlen (autocorrect data) = strlen data
  /\ (star_count data <= star_count (autocorrect data))%nat
  /\ (peek (autocorrect data) j <> peek data j ->
      In j star_offsets /\ (54 < strlen data)%nat
      /\ peek (autocorrect data) j = STAR
      /\ isdigit (peek data (j - 1)) = true).
Proof.
  split; [apply autocorrect_length|].
  split; [apply autocorrect_strlen|].
  split; [apply autocorrect_star_count|].
  intros Hne.
  destruct (autocorrect_changes data j) as [H|(H1 & H2 & _ & H3 & H4)];
    [contradiction|auto].
Qed.

Lemma autocorrect_only_writes_stars_after_digits_witness :
  peek (autocorrect garbled_printout) 11 <> peek garbled_printout 11
  /\ In 11%nat star_offsets
  /\ isdigit (peek garbled_printout 10) = true.
Proof.
  assert (H : peek (autocorrect garbled_printout) 11
              <> peek garbled_printout 11) by (vm_compute; discriminate).
  split; [exact H|].
  destruct (autocorrect_only_writes_stars_after_digits garbled_printout 11)
    as (_ & _ & _ & Hc).
  destruct (Hc H) as (H1 & _ & _ & H4). split; [exact H1|exact H4].
Defined.

(** X2. Seven delimiters anywhere are enough: whenever at least 54 bytes
    have been received from the first delimiter on and the string that
    starts there has 53 characters or more with seven ['*'] among them, the
    validator returns 1, whatever the offsets of those delimiters. *)
Theorem data_done_accepts_seven_stars_anywhere (buf : list Z) (len : Z)
    (start : nat) :
  memchr buf STAR (Z.to_nat len) = Some start ->
  DATA_LENGTH <= len - Z.of_nat start ->
  (7 <= star_count (skipn start buf))%nat ->
  (53 <= strlen (skipn start buf))%nat ->
  fst (data_done buf len) = true.
Proof.
  intros Hm Hlen Hc Hs. rewrite (data_done_found _ _ _ Hm).
  unfold DATA_LENGTH in *.
  destruct (Z.ltb_spec len 54); [lia|].
  destruct (Z.ltb_spec (len - Z.of_nat start) 54); [lia|].
  simpl orb. cbv iota zeta. unfold fst.
  pose proof (autocorrect_star_count (skipn start buf)).
  rewrite autocorrect_strlen.
  destruct (Nat.leb_spec 7 (star_count (autocorrect (skipn start buf))));
    [|lia].
  destruct (Nat.leb_spec 53 (strlen (skipn start buf))); [|lia].
  reflexivity.
Qed.

Lemma data_done_accepts_seven_stars_anywhere_witness :
  fst (data_done (terminated stars_up_front) 54) = true.
Proof.
  apply (data_done_accepts_seven_stars_anywhere
           (terminated stars_up_front) 54 0).
  - reflexivity.
  - vm_compute. discriminate.
  - vm_compute. lia.
  - vm_compute. lia.
Defined.

(** The buffer [data_done] leaves, when it has got as far as the
    autocorrection. *)
Lemma data_done_buffer (buf : list Z) (len : Z) :
  snd (data_done buf len) = buf
  \/ exists start,
       memchr buf STAR (Z.to_nat len) = Some start
       /\ DATA_LENGTH <= len - Z.of_nat start
       /\ snd (data_done buf len)
          = firstn start buf ++ autocorrect (skipn start buf).
Proof.
  destruct (memchr buf STAR (Z.to_nat len)) as [start|] eqn:Hm.
  - rewrite (data_done_found _ _ _ Hm).
    destruct (Z.ltb_spec len DATA_LENGTH); [left; reflexivity|].
    destruct (Z.ltb_spec (len - Z.of_nat start) DATA_LENGTH);
      [left; reflexivity|].
    right. exists start. auto.
  - left. now rewrite (data_done_not_found _ _ Hm).
Qed.

(** Where [data_done] changes a byte of the array. *)
Lemma data_done_changes (buf : list Z) (len : Z) (j : nat) :
  peek (snd (data_done buf len)) j = peek buf j
  \/ (peek (snd (data_done buf len)) j = STAR
      /\ peek buf j <> STAR /\ peek buf j <> 0 /\ peek buf (j + 1) <> 0
      /\ isdigit (peek buf (j - 1)) = true
      /\ exists start o,
           memchr buf STAR (Z.to_nat len) = Some start
           /\ In o star_offsets /\ j = (start + o)%nat).
Proof.
  destruct (data_done_buffer buf len) as [->|(start & Hm & _ & ->)];
    [left; reflexivity|].
  destruct (memchr_Some _ _ _ _ Hm) as (_ & Hl & _ & _).
  assert (Hfl : length (firstn start buf) = start)
    by (rewrite length_firstn; lia).
  destruct (Nat.lt_ge_cases j start) as [Hj|Hj].
  - left. rewrite peek_app_l by lia. apply peek_firstn. lia.
  - rewrite peek_app_r by lia. rewrite Hfl.
    destruct (autocorrect_changes (skipn start buf) (j - start))
      as [H|(Ho & Hs & Hne & Hst & Hd)].
    + left. rewrite H, peek_skipn. f_equal. lia.
    + right. pose proof (star_offsets_below_54 _ Ho) as Hlt.
      assert (Hpos : (0 < j - start)%nat).
      { unfold star_offsets in Ho. simpl in Ho.
        repeat (destruct Ho as [<-|Ho]; [lia|]). contradiction. }
      rewrite peek_skipn in Hne, Hd.
      replace (start + (j - start))%nat with j in Hne by lia.
      replace (start + (j - start - 1))%nat with (j - 1)%nat in Hd by lia.
      pose proof (peek_before_strlen (skipn start buf) (j - start)
                    ltac:(lia)) as Hz.
      pose proof (peek_before_strlen (skipn start buf) (j - start + 1)
                    ltac:(lia)) as Hz'.
      rewrite peek_skipn in Hz, Hz'.
      replace (start + (j - start))%nat with j in Hz by lia.
      replace (start + (j - start + 1))%nat with (j + 1)%nat in Hz' by lia.
      repeat split; auto.
      exists start, (j - start)%nat. repeat split; auto. lia.
Qed.

(** The first delimiter stays where it is. *)
Lemma data_done_memchr (buf : list Z) (len : Z) :
  memchr (snd (data_done buf len)) STAR (Z.to_nat len)
  = memchr buf STAR (Z.to_nat len).
Proof.
  destruct (memchr buf STAR (Z.to_nat len)) as [start|] eqn:Hm.
  - destruct (memchr_Some _ _ _ _ Hm) as (Hn & Hl & Hk & Hbefore).
    apply memchr_intro; auto.
    + rewrite data_done_length. exact Hl.
    + destruct (data_done_changes buf len start) as [->|(H & _)]; auto.
    + intros i Hi.
      destruct (data_done_changes buf len i)
        as [->|(_ & _ & _ & _ & _ & s' & o & Hm' & Ho & Hio)]; auto.
      rewrite Hm in Hm'. injection Hm' as <-. lia.
  - now rewrite (data_done_not_found _ _ Hm).
Qed.

(** X3. [data_done] touches little: the array keeps its size, the first
    delimiter is found where it was, and a byte that has changed is now
    ['*'], stands at one of the seven offsets from the first delimiter,
    follows a digit, and was neither ['*'] nor a zero byte. *)
Theorem data_done_frame (buf : list Z) (len : Z) (j : nat) :
  length (snd (data_done buf len)) = length buf
  /\ memchr (snd (data_done buf len)) STAR (Z.to_nat len)
     = memchr buf STAR (Z.to_nat len)
  /\ (peek (snd (data_done buf len)) j <> peek buf j ->
      peek (snd (data_done buf len)) j = STAR
      /\ peek buf j <> 0
      /\ isdigit (peek buf (j - 1)) = true
      /\ exists start o,
           memchr buf STAR (Z.to_nat len) = Some start
           /\ In o star_offsets /\ j = (start + o)%nat).
Proof.
  split; [apply data_done_length|].
  split; [apply data_done_memchr|].
  intros Hne.
  destruct (data_done_changes buf len j)
    as [H|(H1 & _ & H2 & _ & H3 & H4)]; [contradiction|auto].
Qed.

Lemma data_done_frame_witness :
  peek (snd (data_done (preamble ++ terminated garbled_printout) 66)) 22
  = STAR
  /\ peek (preamble ++ terminated garbled_printout) 22 = 88.
Proof.
  assert (H : peek (snd (data_done (preamble ++ terminated garbled_printout)
                           66)) 22
              <> peek (preamble ++ terminated garbled_printout) 22)
    by (vm_compute; discriminate).
  destruct (data_done_frame (preamble ++ terminated garbled_printout) 66 22)
    as (_ & _ & Hc).
  destruct (Hc H) as (H1 & _). split; [exact H1|reflexivity].
Defined.



Lemma autocorrect_again (d : list Z) :
  autocorrect (autocorrect d) = autocorrect d.
Proof.
  rewrite (autocorrect_unfold (autocorrect d)), autocorrect_strlen.
  destruct (Z.leb_spec (Z.of_nat (strlen d)) DATA_LENGTH) as [Hs|Hs];
    [reflexivity|].
  rewrite autocorrect_unfold.
  destruct (Z.leb_spec (Z.of_nat (strlen d)) DATA_LENGTH); [lia|].
  apply fold_rules_fixed. intros r Hr. apply fixups_settled; auto.
  pose proof (strlen_le_length d). unfold DATA_LENGTH in *. lia.
Qed.

Lemma data_done_on_corrected (buf : list Z) (len : Z) (start : nat) :
  memchr buf STAR (Z.to_nat len) = Some start ->
  DATA_LENGTH <= len - Z.of_nat start ->
  data_done (firstn start buf ++ autocorrect (skipn start buf)) len
  = data_done buf len.
Proof.
  intros Hm Hlen.
  assert (Hb : snd (data_done buf len)
               = firstn start buf ++ autocorrect (skipn start buf)).
  { rewrite (data_done_found _ _ _ Hm).
    destruct (Z.ltb_spec len DATA_LENGTH); [lia|].
    destruct (Z.ltb_spec (len - Z.of_nat start) DATA_LENGTH); [lia|].
    reflexivity. }
  pose proof (data_done_memchr buf len) as Hm'. rewrite Hm, Hb in Hm'.
  assert (Hcond : (len <? DATA_LENGTH)
                  || (len - Z.of_nat start <? DATA_LENGTH) = false).
  { apply orb_false_iff. split; apply Z.ltb_ge; lia. }
  rewrite (data_done_found _ _ _ Hm'), (data_done_found _ _ _ Hm), Hcond.
  cbv zeta.
  destruct (memchr_Some _ _ _ _ Hm) as (_ & Hl & _ & _).
  assert (Hfl : length (firstn start buf) = start)
    by (rewrite length_firstn; lia).
  rewrite (memchr_skipn_firstn _ _ _ _ Hm), autocorrect_again.
  rewrite firstn_app, Hfl, Nat.sub_diag, firstn_firstn, Nat.min_id.
  simpl firstn. rewrite app_nil_r. reflexivity.
Qed.

(** X5. Validating again changes nothing: on the array a call of
    [data_done] has left, a second call with the same length returns the
    same value and leaves the same array. *)
Theorem data_done_idempotent (buf : list Z) (len : Z) :
  data_done (snd (data_done buf len)) len = data_done buf len.
Proof.
  destruct (data_done_buffer buf len) as [Hb|(start & Hm & Hlen & Hb)];
    rewrite Hb.
  - reflexivity.
  - now apply data_done_on_corrected.
Qed.

(** An occurrence of three bytes, byte by byte. *)
Lemma occurs_at_3 (a b c : Z) (s : list Z) (i : nat) :
  occurs_at [a; b; c] s i <->
  (i + 3 <= length s)%nat
  /\ peek s i = a /\ peek s (i + 1) = b /\ peek s (i + 2) = c.
Proof.
  unfold occurs_at.
  assert (P0 : peek s i = peek (skipn i s) 0)
    by (rewrite peek_skipn; f_equal; lia).
  assert (P1 : peek s (i + 1) = peek (skipn i s) 1)
    by (now rewrite peek_skipn).
  assert (P2 : peek s (i + 2) = peek (skipn i s) 2)
    by (now rewrite peek_skipn).
  rewrite P0, P1, P2. clear P0 P1 P2.
  pose proof (length_skipn i s) as Hl.
  destruct (skipn i s) as [|x [|y [|z t]]];
    cbn [length firstn] in *; unfold peek; cbn [nth];
    try (split; [discriminate|intros (H & _); lia]).
  split.
  - intros [= -> -> ->]. repeat split; lia.
  - intros (_ & -> & -> & ->). reflexivity.
Qed.

(** The bytes [data_done] writes are never part of a marker, and the bytes
    it overwrites never were. *)
Lemma data_done_keeps_markers (buf : list Z) (len : Z) (a : Z) (i : nat) :
  a = 0 \/ a = 1 ->
  occurs_at [a; 0; 0] (snd (data_done buf len)) i
  <-> occurs_at [a; 0; 0] buf i.
Proof.
  intros Ha. rewrite !occurs_at_3, data_done_length.
  assert (Hstar : STAR <> 0 /\ STAR <> 1 /\ STAR <> a)
    by (unfold STAR; lia).
  destruct (data_done_changes buf len i) as [E0|(E0 & _ & N0 & N0' & _)];
    destruct (data_done_changes buf len (i + 1))
      as [E1|(E1 & _ & N1 & N1' & _)];
    destruct (data_done_changes buf len (i + 2))
      as [E2|(E2 & _ & N2 & N2' & _)];
    rewrite ?E0, ?E1, ?E2;
    replace (i + 1 + 1)%nat with (i + 2)%nat in * by lia;
    split; intros (Hl & H0 & H1 & H2); repeat split; auto;
    try congruence; try lia; exfalso; intuition congruence.
Qed.

Lemma memmem_window_agrees (b b' m : list Z) (from n : nat) :
  m <> [] ->
  (forall i, occurs_at m b' i <-> occurs_at m b i) ->
  is_some (memmem (firstn n (skipn from b')) m)
  = is_some (memmem (firstn n (skipn from b)) m).
Proof.
  intros Hm H. apply eq_true_iff_eq. rewrite !memmem_found.
  split; intros [j Hj]; exists j;
    apply occurs_in_window in Hj; auto; apply occurs_in_window; auto;
    destruct Hj as [Hb Ho]; split; auto; now apply H.
Qed.

(** X6. The autocorrection of [data_done] neither hides nor fakes
    corruption: the corruption test of the read loop gives the same answer
    on the array [data_done] has left as on the array it was given. *)
Theorem is_corrupted_after_data_done (buf : list Z) (len bytes_read : Z) :
  is_corrupted (snd (data_done buf len)) bytes_read
  = is_corrupted buf bytes_read.
Proof.
  unfold is_corrupted. f_equal. cbv zeta. f_equal.
  - apply memmem_window_agrees; [discriminate|].
    intros i. apply data_done_keeps_markers. auto.
  - apply memmem_window_agrees; [discriminate|].
    intros i. apply data_done_keeps_markers. auto.
Qed.

(** * What lies after the terminator *)

Lemma strlen_app_zero (v rest : list Z) :
  strlen (v ++ 0 :: rest) = strlen v.
Proof.
  induction v as [|c v IH]; simpl; auto.
  destruct (c =? 0); auto.
Qed.

Lemma c_string_app_zero (v rest : list Z) :
  c_string (v ++ 0 :: rest) = c_string v.
Proof.
  unfold c_string. rewrite strlen_app_zero.
  pose proof (strlen_le_length v).
  rewrite firstn_app. replace (strlen v - length v)%nat with O by lia.
  simpl. apply app_nil_r.
Qed.

Lemma poke_app_l (i : nat) (c : Z) (x y : list Z) :
  (i < length x)%nat -> poke i c (x ++ y) = poke i c x ++ y.
Proof.
  revert i; induction x as [|h x IH]; intros [|i] Hi; simpl in *;
    try lia; auto.
  rewrite IH by lia. reflexivity.
Qed.

Lemma AUTOCORRECT_app pos c l r (x y : list Z) :
  (pos + 1 < length x)%nat ->
  AUTOCORRECT pos c l r (x ++ y) = AUTOCORRECT pos c l r x ++ y.
Proof.
  intros H. unfold AUTOCORRECT.
  rewrite !peek_app_l by lia.
  destruct (negb _); auto. destruct (_ && _); auto.
  apply poke_app_l. lia.
Qed.

Lemma fold_rules_app (rs : list rule) (x y : list Z) :
  (forall r, In r rs -> (rule_pos r + 1 < length x)%nat) ->
  fold_left apply_rule rs (x ++ y) = fold_left apply_rule rs x ++ y.
Proof.
  revert x; induction rs as [|r rs IH]; intros x H; simpl; auto.
  unfold apply_rule at 2. rewrite AUTOCORRECT_app by (apply H; now left).
  apply IH. intros r' Hr'. unfold apply_rule.
  rewrite AUTOCORRECT_length. apply H. now right.
Qed.

Lemma autocorrect_app_zero (v rest : list Z) :
  autocorrect (v ++ 0 :: rest) = autocorrect v ++ 0 :: rest.
Proof.
  rewrite !autocorrect_unfold, strlen_app_zero.
  destruct (Z.leb_spec (Z.of_nat (strlen v)) DATA_LENGTH); auto.
  apply fold_rules_app. intros r Hr.
  destruct (rules_facts r Hr) as (_ & Hlt & _).
  pose proof (strlen_le_length v). unfold DATA_LENGTH in *. lia.
Qed.

Lemma memchr_app_l (v y : list Z) (c : Z) (n : nat) :
  (n <= length v)%nat -> memchr (v ++ y) c n = memchr v c n.
Proof.
  revert n; induction v as [|x v IH]; intros n Hn; simpl in *.
  - replace n with O by lia. destruct y; reflexivity.
  - destruct n as [|n]; auto.
    destruct (x =? c); auto. rewrite IH by lia. reflexivity.
Qed.

Lemma star_count_app_zero (v rest : list Z) :
  star_count (v ++ 0 :: rest) = star_count v.
Proof. unfold star_count. now rewrite c_string_app_zero. Qed.

(** [data_done] on an array that holds the bytes [v] and the terminator
    after them, in terms of [data_done] on [v] alone. *)
Lemma data_done_app_zero (v rest : list Z) :
  data_done (v ++ 0 :: rest) (Z.of_nat (length v))
  = (fst (data_done v (Z.of_nat (length v))),
     snd (data_done v (Z.of_nat (length v))) ++ 0 :: rest).
Proof.
  pose proof (memchr_app_l v (0 :: rest) STAR (Z.to_nat (Z.of_nat (length v))))
    as Hm.
  rewrite Nat2Z.id in Hm. specialize (Hm (Nat.le_refl _)).
  destruct (memchr v STAR (length v)) as [start|] eqn:Hv.
  - assert (Hv' : memchr v STAR (Z.to_nat (Z.of_nat (length v))) = Some start)
      by now rewrite Nat2Z.id.
    assert (Hm' : memchr (v ++ 0 :: rest) STAR
                    (Z.to_nat (Z.of_nat (length v))) = Some start)
      by now rewrite Nat2Z.id.
    rewrite (data_done_found _ _ _ Hm'), (data_done_found _ _ _ Hv').
    destruct (_ || _); [reflexivity|]. cbv zeta. unfold fst, snd.
    destruct (memchr_Some _ _ _ _ Hv) as (_ & Hl & _ & _).
    rewrite skipn_app, firstn_app.
    replace (start - length v)%nat with O by lia.
    simpl skipn. simpl firstn. rewrite app_nil_r.
    rewrite autocorrect_app_zero, star_count_app_zero, strlen_app_zero.
    rewrite <- app_assoc. reflexivity.
  - assert (Hv' : memchr v STAR (Z.to_nat (Z.of_nat (length v))) = None)
      by now rewrite Nat2Z.id.
    assert (Hm' : memchr (v ++ 0 :: rest) STAR
                    (Z.to_nat (Z.of_nat (length v))) = None)
      by now rewrite Nat2Z.id.
    rewrite (data_done_not_found _ _ Hm'), (data_done_not_found _ _ Hv').
    reflexivity.
Qed.

Lemma is_corrupted_prefix (b b' : list Z) (n : Z) :
  firstn (Z.to_nat n) b = firstn (Z.to_nat n) b' ->
  is_corrupted b n = is_corrupted b' n.
Proof.
  intros H. unfold is_corrupted.
  destruct (Z.gtb_spec n DATA_LENGTH); [|reflexivity].
  unfold DATA_LENGTH in *. cbv zeta.
  assert (Hw : firstn (Z.to_nat (n - 30)) (skipn 30 b)
               = firstn (Z.to_nat (n - 30)) (skipn 30 b')).
  { replace (Z.to_nat (n - 30)) with (Z.to_nat n - 30)%nat by lia.
    rewrite <- !skipn_firstn_comm. now rewrite H. }
  now rewrite Hw.
Qed.

(** X7. What lies after the terminator never matters: for the bytes
    [received] followed by a zero byte, the value [data_done] returns and
    the bytes it leaves in place of [received] are the same whatever the
    rest of the array holds, that rest is left as it is, and the
    corruption test gives the same answer too. *)
Theorem data_done_ignores_stale_bytes (received rest rest' : list Z) :
  let len := Z.of_nat (length received) in
  exists verdict corrected_bytes,
    length corrected_bytes = length received
    /\ data_done (received ++ 0 :: rest) len
       = (verdict, corrected_bytes ++ 0 :: rest)
    /\ data_done (received ++ 0 :: rest') len
       = (verdict, corrected_bytes ++ 0 :: rest')
    /\ is_corrupted (corrected_bytes ++ 0 :: rest) len
       = is_corrupted (corrected_bytes ++ 0 :: rest') len.
Proof.
  intros len.
  exists (fst (data_done received len)), (snd (data_done received len)).
  split; [apply data_done_length|].
  split; [apply data_done_app_zero|].
  split; [apply data_done_app_zero|].
  apply is_corrupted_prefix. unfold len. rewrite Nat2Z.id.
  rewrite !firstn_app, (data_done_length received).
  rewrite Nat.sub_diag. reflexivity.
Qed.

(** * Further properties of the session *)

Lemma data_done_settled (b : list Z) (len : Z) :
  data_done (snd (data_done b len)) len
  = (fst (data_done b len), snd (data_done b len)).
Proof.
  destruct (data_done_buffer b len) as [Hb|(start & Hm & Hlen & Hb)];
    rewrite Hb.
  - rewrite <- Hb at 3. apply surjective_pairing.
  - rewrite data_done_on_corrected by auto. rewrite <- Hb.
    apply surjective_pairing.
Qed.

(** What the first part of a pass has established of the array it
    leaves. *)
Lemma look_verdict (s : session) found v' net' log' :
  in_bounds (vars s) ->
  look s = (found, v', net', log') ->
  found <> Nothing ->
  peek (buf v') (Z.to_nat (bytes_read v')) = 0
  /\ data_done (buf v') (bytes_read v')
     = (match found with Valid => true | _ => false end, buf v')
  /\ (found <> Valid ->
      is_corrupted (buf v') (bytes_read v')
      = match found with Corrupt => true | _ => false end).
Proof.
  intros (Hlen & Hbr & Hpos & Hleft). unfold look.
  destruct (sys_read ((left (vars s) - 1) mod 2 ^ 64) (net s))
    as [[r got] net''] eqn:Hread.
  assert (Hcount : (left (vars s) - 1) mod 2 ^ 64 = 511 - bytes_read (vars s)).
  { rewrite Hleft. rewrite Z.mod_small; lia. }
  rewrite Hcount in *.
  destruct (sys_read_bounds _ _ _ _ _ Hread) as (Hlo & _ & Hhi).
  rewrite (to_int_small r) by lia.
  destruct (Z.leb_spec r 0) as [Hle|Hgt].
  { intros [= <- <- <- <-]. congruence. }
  destruct (Hhi Hgt) as (Hrc & Hgot & Hw).
  set (br := bytes_read (vars s) + r).
  set (buf2 := poke (Z.to_nat br) 0
                 (store_at (pos (vars s)) got (buf (vars s)))).
  assert (Hz : peek buf2 (Z.to_nat br) = 0).
  { unfold buf2. apply peek_poke_same. rewrite store_at_length; lia. }
  pose proof (data_done_settled buf2 br) as Hset.
  assert (Hz' : peek (snd (data_done buf2 br)) (Z.to_nat br) = 0).
  { destruct (data_done_changes buf2 br (Z.to_nat br))
      as [->|(_ & _ & Hn & _)]; [exact Hz|contradiction]. }
  destruct (data_done buf2 br) as [done buf3] eqn:Hdd.
  simpl fst in Hset. simpl snd in Hset, Hz'.
  destruct done; [|destruct (is_corrupted buf3 br) eqn:Hc];
    intros [= <- <- <- <-] _; simpl; repeat split; auto; congruence.
Qed.

Lemma iteration_judged (s : session) :
  sound s -> judged s -> judged (iteration s).
Proof.
  intros (Hb & _) Hj. unfold iteration.
  destruct (stage s) eqn:Hst; auto.
  destruct (look s) as [[[found v'] net'] log'] eqn:Hl.
  pose proof (look_verdict _ _ _ _ _ Hb Hl) as Hv.
  destruct found; unfold judged; simpl; auto.
  - destruct (Hv ltac:(discriminate)) as (_ & H & _). exact H.
  - destruct (Hv ltac:(discriminate)) as (_ & H & Hc).
    destruct (reset v' + 1 =? 2); simpl; auto.
    split; [exact H|]. apply Hc. discriminate.
Qed.

Lemma run_judged (junk : list Z) (net0 : list arrival) (n : nat) :
  judged (run n (start junk net0)).
Proof.
  induction n as [|n IH]; [exact I|].
  unfold run in *. simpl. apply iteration_judged; auto.
  apply (run_sound junk net0 n).
Qed.

Lemma data_done_true_length (b b' : list Z) (len : Z) :
  data_done b len = (true, b') -> DATA_LENGTH <= len.
Proof.
  unfold data_done. destruct (Z.ltb_spec len DATA_LENGTH); auto.
  discriminate.
Qed.

(** X8. The outcome of a session can be read off what it leaves: after
    [SUCCESS] the flag [success] is 1, at least 54 bytes are in the array
    and [data_done] accepts the final array as it is; after [ABORTED] the
    flag is 0, more than 54 bytes are in the array, [data_done] rejects it
    and the corruption test is true of it; after [CLOSED] the flag is 0. *)
Theorem outcome_matches_final_buffer (cfg : config) (dsk : disk)
    (junk : list Z) (net0 : list arrival) (fuel : nat) (r : result) :
  handler cfg dsk junk net0 fuel = Some r ->
  let v := final r in
  match outcome r with
  | SUCCESS =>
      success v = 1 /\ DATA_LENGTH <= bytes_read v
      /\ data_done (buf v) (bytes_read v) = (true, buf v)
  | ABORTED =>
      success v = 0 /\ DATA_LENGTH < bytes_read v
      /\ data_done (buf v) (bytes_read v) = (false, buf v)
      /\ is_corrupted (buf v) (bytes_read v) = true
  | CLOSED => success v = 0
  | ACCUMULATING => False
  end.
Proof.
  unfold handler.
  destruct (run_sound junk net0 fuel) as (_ & _ & Hsucc & _).
  pose proof (run_judged junk net0 fuel) as Hj.
  set (s := run fuel (start junk net0)) in *.
  assert (He : forall r,
             epilogue cfg dsk s = r ->
             outcome r = stage s /\ final r = vars s).
  { intros r' <-. unfold epilogue. destruct (log_to_file cfg); auto.
    destruct (save_data _ _ _ _ _); auto. }
  unfold judged in Hj.
  destruct (stage s) eqn:Hst; try discriminate;
    intros [= Hr]; destruct (He r Hr) as [-> ->]; cbv zeta.
  - split; [exact Hsucc|]. split; [|exact Hj].
    apply (data_done_true_length _ _ _ Hj).
  - destruct Hj as [Hd Hc]. repeat split; auto.
    unfold is_corrupted in Hc. apply andb_true_iff in Hc.
    destruct Hc as [Hc _]. apply Z.gtb_lt in Hc. lia.
  - exact Hsucc.
Qed.

Lemma outcome_matches_final_buffer_witness :
  exists r,
    handler sample_config sample_disk [] corrupted_twice 2 = Some r
    /\ outcome r = ABORTED
    /\ is_corrupted (buf (final r)) (bytes_read (final r)) = true.
Proof.
  destruct (handler sample_config sample_disk [] corrupted_twice 2)
    as [r|] eqn:Hr; [|vm_compute in Hr; discriminate Hr].
  assert (Ho : outcome r = ABORTED).
  { vm_compute in Hr. injection Hr as <-. reflexivity. }
  exists r. split; [reflexivity|]. split; [exact Ho|].
  pose proof (outcome_matches_final_buffer _ _ _ _ _ _ Hr) as H.
  cbv zeta in H. rewrite Ho in H. apply H.
Defined.

(** X9. The assertion of [save_data] never fails in a session: when
    [handler] passes [success] as 1, a ['*'] is among the first
    [bytes_read] bytes of the array. *)
Theorem save_data_assertion_holds (cfg : config) (dsk : disk)
    (junk : list Z) (net0 : list arrival) (fuel : nat) (r : result) :
  handler cfg dsk junk net0 fuel = Some r ->
  saved r <> Some AssertionFailed.
Proof.
  unfold handler.
  destruct (run_sound junk net0 fuel) as (_ & _ & Hsucc & _ & Hacc).
  set (s := run fuel (start junk net0)) in *.
  assert (He : Some (epilogue cfg dsk s) = Some r ->
               saved r <> Some AssertionFailed).
  { intros [= <-]. unfold epilogue.
    destruct (log_to_file cfg); [|discriminate].
    destruct (save_data cfg dsk (buf (vars s)) (bytes_read (vars s))
                (success (vars s))) as [res evs] eqn:Hsave.
    simpl. intros [= ->]. unfold save_data in Hsave.
    destruct (negb (success (vars s) =? 0)) eqn:Hflag.
    - assert (Hst : stage s = SUCCESS).
      { destruct (stage s); auto; rewrite Hsucc in Hflag; discriminate. }
      destruct (Hacc Hst) as (b & Hdd).
      destruct (data_done_accepted _ _ _ Hdd) as (start & Hm & _).
      rewrite Hm in Hsave.
      destruct (write_out dsk _ (buf (vars s)) (bytes_read (vars s)))
        as [res' evs'] eqn:Hw in Hsave.
      injection Hsave as Hres _. subst res'.
      unfold write_out in Hw.
      destruct (_ <? 0) in Hw; [discriminate|].
      destruct (negb _) in Hw; discriminate.
    - destruct (pick_name _ _ _) as [[filename|] evs0]; [|discriminate].
      destruct (write_out dsk filename (buf (vars s)) (bytes_read (vars s)))
        as [res' evs'] eqn:Hw.
      injection Hsave as Hres _. subst res'.
      unfold write_out in Hw.
      destruct (_ <? 0) in Hw; [discriminate|].
      destruct (negb _) in Hw; discriminate. }
  destruct (stage s); try discriminate; exact He.
Qed.

Lemma save_data_assertion_holds_witness :
  exists r,
    handler sample_config sample_disk [] good_call 2 = Some r
    /\ saved r <> Some AssertionFailed.
Proof.
  destruct (handler sample_config sample_disk [] good_call 2) as [r|] eqn:Hr;
    [|vm_compute in Hr; discriminate Hr].
  exists r. split; [reflexivity|].
  exact (save_data_assertion_holds _ _ _ _ _ _ Hr).
Defined.

(** X10. A full array ends the session: once 511 bytes are in the array
    and the loop is still running, the next [read] is asked for 0 bytes and
    returns nothing, so the session leaves the loop as [CLOSED] with its
    variables as they were, whatever the connection still has to
    deliver. *)
Theorem full_buffer_ends_session (junk : list Z) (net0 : list arrival)
    (n : nat) :
  let s := run n (start junk net0) in
  stage s = ACCUMULATING ->
  bytes_read (vars s) = 511 ->
  stage (iteration s) = CLOSED
  /\ vars (iteration s) = vars s
  /\ exists r, log (iteration s) = log s ++ [EvRead 0 r] /\ r <= 0.
Proof.
  intros s Hst Hfull.
  destruct (run_sound junk net0 n) as ((_ & _ & _ & Hleft) & _).
  fold s in Hleft.
  unfold iteration, look. rewrite Hst, Hleft, Hfull.
  change ((512 - 511 - 1) mod 2 ^ 64) with 0.
  destruct (sys_read 0 (net s)) as [[r got] net'] eqn:Hread.
  destruct (sys_read_bounds _ _ _ _ _ Hread) as (Hlo & _ & Hhi).
  assert (Hr : r <= 0).
  { destruct (Z.leb_spec r 0); auto. destruct (Hhi ltac:(lia)). lia. }
  rewrite (to_int_small r) by lia.
  destruct (Z.leb_spec r 0); [|lia].
  simpl. repeat split; auto. exists r. auto.
Qed.

Lemma full_buffer_ends_session_witness :
  stage (run 2 (start [] flood)) = CLOSED
  /\ bytes_read (vars (run 2 (start [] flood))) = 511.
Proof.
  assert (H1 : stage (run 1 (start [] flood)) = ACCUMULATING)
    by (vm_compute; reflexivity).
  assert (H2 : bytes_read (vars (run 1 (start [] flood))) = 511)
    by (vm_compute; reflexivity).
  destruct (full_buffer_ends_session [] flood 1 H1 H2) as (Hs & Hv & _).
  split; [exact Hs|].
  change (run 2 (start [] flood)) with (iteration (run 1 (start [] flood))).
  rewrite Hv. exact H2.
Defined.

(** * The session in terms of the bytes received *)

(** The array after [got] has been stored at [p] and the terminator after
    it. *)
Lemma store_terminate (p : nat) (got arr : list Z) :
  (p + length got < length arr)%nat ->
  poke (p + length got) 0 (store_at p got arr)
  = (firstn p arr ++ got) ++ 0 :: skipn (S (p + length got)) arr.
Proof.
  intros H. unfold store_at.
  assert (Hsk : exists x, skipn (p + length got) arr
                          = x :: skipn (S (p + length got)) arr).
  { pose proof (length_skipn (p + length got) arr) as Hl.
    destruct (skipn (p + length got) arr) as [|x t] eqn:E;
      [simpl in Hl; lia|].
    exists x. f_equal.
    change (S (p + length got)) with (1 + (p + length got))%nat.
    rewrite <- skipn_skipn, E. reflexivity. }
  destruct Hsk as [x ->].
  rewrite app_assoc.
  assert (Hl : length (firstn p arr ++ got) = (p + length got)%nat).
  { rewrite length_app, length_firstn. lia. }
  rewrite <- Hl at 1.
  generalize (skipn (S (p + length got)) arr) as tail.
  generalize (firstn p arr ++ got) as pre. clear.
  induction pre as [|h pre IH]; intros tail; cbn [length poke app]; auto.
  now rewrite IH.
Qed.

(** A pass whose [read] returns nothing. *)
Lemma look_nothing (s : session) r got net' :
  in_bounds (vars s) ->
  sys_read (511 - bytes_read (vars s)) (net s) = (r, got, net') ->
  r <= 0 ->
  look s = (Nothing, vars s, net',
            log s ++ [EvRead (511 - bytes_read (vars s)) r]).
Proof.
  intros (Hlen & Hbr & Hpos & Hleft) Hread Hr. unfold look.
  assert (Hcount : (left (vars s) - 1) mod 2 ^ 64 = 511 - bytes_read (vars s)).
  { rewrite Hleft. rewrite Z.mod_small; lia. }
  rewrite Hcount, Hread.
  destruct (sys_read_bounds _ _ _ _ _ Hread) as (Hlo & _ & _).
  rewrite (to_int_small r) by lia.
  destruct (Z.leb_spec r 0); [reflexivity|lia].
Qed.

(** A pass whose [read] returns the bytes [got], in terms of the bytes
    [valid] that are in the array after it. *)
Lemma look_received (s : session) r got net' :
  in_bounds (vars s) ->
  sys_read (511 - bytes_read (vars s)) (net s) = (r, got, net') ->
  0 < r ->
  let v := vars s in
  let valid := firstn (Z.to_nat (bytes_read v)) (buf v) ++ got in
  let br := Z.of_nat (length valid) in
  let rest := skipn (S (length valid)) (buf v) in
  let valid' := snd (data_done valid br) in
  br = bytes_read v + r
  /\ length valid' = length valid
  /\ look s =
     ((if fst (data_done valid br) then Valid
       else if is_corrupted valid' br then Corrupt else Partial),
      HState (valid' ++ 0 :: rest) (length valid) br (512 - br)
             (success v) (reset v),
      net', log s ++ [EvRead (511 - bytes_read v) r]).
Proof.
  intros (Hlen & Hbr & Hpos & Hleft) Hread Hr v valid br rest valid'.
  subst v.
  destruct (sys_read_bounds _ _ _ _ _ Hread) as (Hlo & _ & Hhi).
  destruct (Hhi Hr) as (Hrc & Hgot & _).
  assert (Hvl : length valid
                = (Z.to_nat (bytes_read (vars s)) + length got)%nat).
  { unfold valid. rewrite length_app, length_firstn. lia. }
  assert (Hbr' : br = bytes_read (vars s) + r) by (unfold br; lia).
  split; [exact Hbr'|].
  split; [apply data_done_length|].
  unfold look.
  assert (Hcount : (left (vars s) - 1) mod 2 ^ 64 = 511 - bytes_read (vars s)).
  { rewrite Hleft. rewrite Z.mod_small; lia. }
  rewrite Hcount, Hread.
  rewrite (to_int_small r) by lia.
  destruct (Z.leb_spec r 0); [lia|].
  rewrite Hpos.
  replace (Z.to_nat (bytes_read (vars s) + r))
    with (Z.to_nat (bytes_read (vars s)) + length got)%nat by lia.
  rewrite store_terminate by lia.
  fold valid. rewrite <- Hvl. fold rest.
  rewrite <- Hbr'.
  replace ((left (vars s) - r) mod 2 ^ 64) with (512 - br)
    by (rewrite Hleft, Z.mod_small; lia).
  unfold br at 1 2. rewrite data_done_app_zero. fold br. fold valid'.
  assert (Hc : is_corrupted (valid' ++ 0 :: rest) br
               = is_corrupted valid' br).
  { apply is_corrupted_prefix. unfold br. rewrite Nat2Z.id.
    rewrite firstn_app.
    replace (length valid - length valid')%nat with O
      by (unfold valid'; rewrite data_done_length; lia).
    simpl. rewrite app_nil_r. reflexivity. }
  rewrite Hc.
  replace (Z.to_nat (bytes_read (vars s)) + Z.to_nat r)%nat
    with (length valid) by lia.
  destruct (fst (data_done valid br)); [reflexivity|].
  destruct (is_corrupted valid' br); reflexivity.
Qed.

Lemma firstn_app_exact (x y : list Z) (n : nat) :
  n = length x -> firstn n (x ++ y) = x.
Proof.
  intros ->. rewrite firstn_app, Nat.sub_diag, firstn_all. simpl.
  apply app_nil_r.
Qed.

Lemma iteration_alike (s1 s2 : session) :
  in_bounds (vars s1) -> in_bounds (vars s2) ->
  alike s1 s2 -> alike (iteration s1) (iteration s2).
Proof.
  intros Hb1 Hb2 Ha.
  destruct Ha as (Hst & Hnet & Hlog & Hpos & Hbr & Hleft & Hsu & Hre & Hpre).
  unfold iteration. rewrite Hst.
  destruct (stage s2) eqn:Hst2;
    try (unfold alike; rewrite Hst, Hst2; repeat split; auto; fail).
  destruct (sys_read (511 - bytes_read (vars s2)) (net s2))
    as [[r got] net'] eqn:Hread.
  assert (Hread1 : sys_read (511 - bytes_read (vars s1)) (net s1)
                   = (r, got, net')) by (rewrite Hbr, Hnet; exact Hread).
  destruct (Z.leb_spec r 0) as [Hr|Hr].
  - rewrite (look_nothing s1 _ _ _ Hb1 Hread1 Hr),
      (look_nothing s2 _ _ _ Hb2 Hread Hr).
    unfold alike; simpl. rewrite Hlog. repeat split; auto.
    now rewrite Hbr.
  - destruct (look_received s1 _ _ _ Hb1 Hread1 Hr) as (Hn1 & Hl1 & ->).
    destruct (look_received s2 _ _ _ Hb2 Hread Hr) as (Hn2 & Hl2 & ->).
    rewrite Hpre, Hlog, Hbr, Hsu, Hre in *.
    set (valid := firstn (Z.to_nat (bytes_read (vars s2))) (buf (vars s2))
                  ++ got) in *.
    set (br := Z.of_nat (length valid)) in *.
    set (valid' := snd (data_done valid br)) in *.
    assert (Hf : forall rest, firstn (Z.to_nat br) (valid' ++ 0 :: rest)
                              = valid').
    { intros rest. apply firstn_app_exact. unfold br. lia. }
    destruct (fst (data_done valid br));
      [|destruct (is_corrupted valid' br)];
      cbn [reset success buf pos bytes_read left];
      try destruct (reset (vars s2) + 1 =? 2);
      unfold alike;
      cbn [vars stage net log reset success buf pos bytes_read left];
      rewrite ?Hf; repeat split; auto.
Qed.

Lemma run_alike (junk1 junk2 : list Z) (net0 : list arrival) (n : nat) :
  alike (run n (start junk1 net0)) (run n (start junk2 net0)).
Proof.
  induction n as [|n IH].
  - unfold alike; simpl. repeat split; auto.
  - unfold run in *. simpl. apply iteration_alike; auto;
      apply (run_sound _ net0 n).
Qed.

Lemma memchr_firstn (b : list Z) (c : Z) (n : nat) :
  memchr (firstn n b) c n = memchr b c n.
Proof.
  revert b; induction n as [|n IH]; intros [|x b]; simpl; auto.
  destruct (x =? c); auto. now rewrite IH.
Qed.

(** What an accepted array holds after its first delimiter. *)
Lemma data_done_accepted_room (b : list Z) (len : Z) :
  data_done b len = (true, b) ->
  exists start,
    memchr b STAR (Z.to_nat len) = Some start
    /\ DATA_LENGTH <= len - Z.of_nat start
    /\ (53 <= strlen (skipn start b))%nat.
Proof.
  intros Hd.
  destruct (data_done_accepted _ _ _ Hd) as (start & Hm & Hs).
  exists start. split; [exact Hm|]. split; [|exact Hs].
  rewrite (data_done_found _ _ _ Hm) in Hd.
  destruct (Z.ltb_spec len DATA_LENGTH); [discriminate|].
  destruct (Z.ltb_spec (len - Z.of_nat start) DATA_LENGTH);
    [discriminate|lia].
Qed.

Lemma firstn_skipn_within (b b' : list Z) (n k m : nat) :
  firstn n b = firstn n b' -> (k + m <= n)%nat ->
  firstn m (skipn k b) = firstn m (skipn k b').
Proof.
  intros H Hle.
  assert (E : forall l : list Z, firstn m (skipn k l)
                        = firstn m (skipn k (firstn n l))).
  { intros l. rewrite skipn_firstn_comm, firstn_firstn.
    now rewrite Nat.min_l by lia. }
  rewrite (E b), (E b'), H. reflexivity.
Qed.

(** [save_data] on two arrays with the same first [len] bytes, one of
    which has been accepted when [success] is set. *)
Lemma save_data_alike (cfg : config) (dsk : disk) (b b' : list Z)
    (len success_ : Z) :
  0 <= len ->
  firstn (Z.to_nat len) b = firstn (Z.to_nat len) b' ->
  (success_ <> 0 ->
   data_done b len = (true, b) /\ data_done b' len = (true, b')) ->
  save_data cfg dsk b len success_ = save_data cfg dsk b' len success_.
Proof.
  intros Hlen Hpre Hacc. unfold save_data, write_out. rewrite Hpre.
  destruct (Z.eqb_spec success_ 0) as [_|Hne]; cbn [negb]; [reflexivity|].
  destruct (Hacc Hne) as [Hd Hd'].
  destruct (data_done_accepted_room _ _ Hd) as (start & Hm & Hroom & Hs).
  destruct (data_done_accepted_room _ _ Hd') as (start' & Hm' & _ & Hs').
  assert (start' = start).
  { rewrite <- memchr_firstn, <- Hpre, memchr_firstn, Hm in Hm'.
    congruence. }
  subst start'. rewrite Hm, Hm'.
  assert (Ht : forall x, (53 <= strlen (skipn start x))%nat ->
                         (10 <= strlen (skipn (S start) x))%nat).
  { intros x Hx. pose proof (strlen_skipn_1 (skipn start x)) as H1.
    rewrite skipn_skipn in H1.
    change (1 + start)%nat with (S start) in H1. lia. }
  destruct (c_string_prec_full 10 _ (Ht b Hs)) as [-> _].
  destruct (c_string_prec_full 10 _ (Ht b' Hs')) as [-> _].
  rewrite (firstn_skipn_within b b' (Z.to_nat len) (S start) 10 Hpre).
  - reflexivity.
  - unfold DATA_LENGTH in Hroom. lia.
Qed.

(** X11. What the stack held in [buf] when the thread started never shows:
    for the same arrivals, two sessions that start with different contents
    of the array make the same system calls with the same arguments (the
    same file name and the same bytes written among them), end with the
    same outcome, and leave the same fill length, counters and received
    bytes. *)
Theorem handler_ignores_uninitialised_buffer (cfg : config) (dsk : disk)
    (junk1 junk2 : list Z) (net0 : list arrival) (fuel : nat) :
  match handler cfg dsk junk1 net0 fuel, handler cfg dsk junk2 net0 fuel with
  | Some r1, Some r2 =>
      outcome r1 = outcome r2
      /\ effects r1 = effects r2
      /\ saved r1 = saved r2
      /\ bytes_read (final r1) = bytes_read (final r2)
      /\ success (final r1) = success (final r2)
      /\ reset (final r1) = reset (final r2)
      /\ firstn (Z.to_nat (bytes_read (final r1))) (buf (final r1))
         = firstn (Z.to_nat (bytes_read (final r2))) (buf (final r2))
  | None, None => True
  | _, _ => False
  end.
Proof.
  unfold handler.
  pose proof (run_alike junk1 junk2 net0 fuel) as Ha.
  pose proof (run_sound junk1 net0 fuel) as Hs1.
  pose proof (run_sound junk2 net0 fuel) as Hs2.
  pose proof (run_judged junk1 net0 fuel) as Hj1.
  pose proof (run_judged junk2 net0 fuel) as Hj2.
  set (s1 := run fuel (start junk1 net0)) in *.
  set (s2 := run fuel (start junk2 net0)) in *.
  destruct Ha as (Hst & Hnet & Hlog & Hpos & Hbr & Hleft & Hsu & Hre & Hpre).
  destruct Hs1 as ((_ & Hbr1 & _) & _ & Hsucc1 & _).
  destruct Hs2 as (_ & _ & Hsucc2 & _).
  assert (Hsave : save_data cfg dsk (buf (vars s1)) (bytes_read (vars s1))
                    (success (vars s1))
                  = save_data cfg dsk (buf (vars s2)) (bytes_read (vars s2))
                      (success (vars s2))).
  { rewrite <- Hbr, <- Hsu. apply save_data_alike; [lia| |].
    - rewrite Hpre, Hbr. reflexivity.
    - intros Hne. unfold judged in Hj1, Hj2. rewrite <- Hbr in Hj2.
      rewrite <- Hst in *.
      destruct (stage s1); try (rewrite Hsucc1 in Hne; congruence).
      auto. }
  assert (He : let r1 := epilogue cfg dsk s1 in
               let r2 := epilogue cfg dsk s2 in
               outcome r1 = outcome r2
               /\ effects r1 = effects r2
               /\ saved r1 = saved r2
               /\ bytes_read (final r1) = bytes_read (final r2)
               /\ success (final r1) = success (final r2)
               /\ reset (final r1) = reset (final r2)
               /\ firstn (Z.to_nat (bytes_read (final r1))) (buf (final r1))
                  = firstn (Z.to_nat (bytes_read (final r2)))
                      (buf (final r2))).
  { unfold epilogue. rewrite Hsave, Hlog. clear Hsave.
    destruct (log_to_file cfg).
    - destruct (save_data _ _ _ _ _) as [res evs].
      cbn [outcome final effects saved]. repeat split; auto.
    - cbn [outcome final effects saved]. repeat split; auto. }
  rewrite <- Hst. destruct (stage s1); auto.
Qed.

(** A [read] that is offered no more than it asks for takes it all. *)
Lemma sys_read_whole (count b : Z) (more : list Z) (net' : list arrival) :
  Z.of_nat (S (length more)) <= count ->
  sys_read count (Data b more :: net')
  = (Z.of_nat (S (length more)), b :: more, net').
Proof.
  intros H. unfold sys_read.
  destruct (Z.leb_spec count 0); [lia|].
  rewrite firstn_all2, skipn_all2 by (simpl; lia). reflexivity.
Qed.

Lemma length_le_weight (net0 : list arrival) :
  (length net0 <= weight net0)%nat.
Proof.
  induction net0 as [|[b more|] net0 IH]; simpl; lia.
Qed.

(** [data_done] when no delimiter has 54 bytes after it yet. *)
Lemma data_done_short (b : list Z) (len : Z) :
  (forall start, memchr b STAR (Z.to_nat len) = Some start ->
                 len - Z.of_nat start < DATA_LENGTH) ->
  data_done b len = (false, b).
Proof.
  intros H. destruct (memchr b STAR (Z.to_nat len)) as [start|] eqn:Hm.
  - rewrite (data_done_found _ _ _ Hm).
    destruct (Z.ltb_spec (len - Z.of_nat start) DATA_LENGTH);
      [now rewrite orb_true_r|].
    specialize (H start eq_refl). lia.
  - now apply data_done_not_found.
Qed.

Lemma is_corrupted_short (b : list Z) (n : Z) :
  n <= DATA_LENGTH -> is_corrupted b n = false.
Proof.
  intros H. unfold is_corrupted.
  destruct (Z.gtb_spec n DATA_LENGTH); [lia|reflexivity].
Qed.

(** A session that is offered fewer than 54 bytes in all. *)
Lemma run_short (net0 : list arrival) :
  forall (s : session) (fuel : nat),
    sound s -> stage s = ACCUMULATING -> net s = net0 ->
    (length net0 < fuel)%nat ->
    bytes_read (vars s) + Z.of_nat (length (delivered net0)) < DATA_LENGTH ->
    let s' := run fuel s in
    stage s' = CLOSED
    /\ reset (vars s') = reset (vars s)
    /\ bytes_read (vars s')
       = bytes_read (vars s) + Z.of_nat (length (delivered net0))
    /\ firstn (Z.to_nat (bytes_read (vars s'))) (buf (vars s'))
       = firstn (Z.to_nat (bytes_read (vars s))) (buf (vars s))
         ++ delivered net0.
Proof.
  induction net0 as [|a net0 IH]; intros s fuel Hs Hst Hnet Hfuel Hlen;
    cbv zeta;
    (destruct fuel as [|fuel]; [simpl in Hfuel; lia|]);
    rewrite run_succ; pose proof Hs as (Hb & _);
    pose proof Hb as (_ & Hbr & _).
  - (* the peer has closed *)
    assert (Hread : sys_read (511 - bytes_read (vars s)) (net s) = (0, [], []))
      by (rewrite Hnet; reflexivity).
    unfold iteration. rewrite Hst, (look_nothing s _ _ _ Hb Hread) by lia.
    rewrite run_exited by (simpl; discriminate). simpl.
    rewrite app_nil_r. repeat split; auto. lia.
  - destruct a as [b more|].
    + (* a run of bytes *)
      cbn [delivered] in Hlen. rewrite length_app in Hlen.
      assert (Hread : sys_read (511 - bytes_read (vars s)) (net s)
                      = (Z.of_nat (S (length more)), b :: more, net0)).
      { rewrite Hnet. apply sys_read_whole.
        unfold DATA_LENGTH in Hlen. simpl length in Hlen. lia. }
      destruct (look_received s _ _ _ Hb Hread ltac:(lia))
        as (Hn & Hl & Hlook).
      cbv zeta in Hn, Hl, Hlook.
      set (valid := firstn (Z.to_nat (bytes_read (vars s))) (buf (vars s))
                    ++ b :: more) in *.
      set (br := Z.of_nat (length valid)) in *.
      assert (Hshort : br < DATA_LENGTH)
        by (rewrite Hn; simpl length in Hlen; lia).
      assert (Hdd : data_done valid br = (false, valid)).
      { unfold data_done. destruct (Z.ltb_spec br DATA_LENGTH); [auto|lia]. }
      rewrite Hdd in Hlook. cbn [fst snd] in Hlook.
      rewrite is_corrupted_short in Hlook by lia.
      pose proof (iteration_sound s Hs) as Hs'.
      unfold iteration in *. rewrite Hst, Hlook in *.
      match goal with
      | |- context [run fuel ?x] => set (s1 := x) in *
      end.
      assert (Eb : bytes_read (vars s1) = br) by reflexivity.
      assert (Er : reset (vars s1) = reset (vars s)) by reflexivity.
      assert (Ef : buf (vars s1)
                   = valid ++ 0 :: skipn (S (length valid)) (buf (vars s)))
        by reflexivity.
      destruct (IH s1 fuel Hs' eq_refl eq_refl ltac:(simpl in Hfuel; lia))
        as (H1 & H2 & H3 & H4).
      { rewrite Eb, Hn. simpl length in Hlen. lia. }
      rewrite Eb in H3, H4. rewrite Er in H2. rewrite Ef in H4.
      split; [exact H1|]. split; [exact H2|].
      split.
      * rewrite H3, Hn. cbn [delivered]. rewrite length_app.
        simpl length. lia.
      * rewrite H4. rewrite firstn_app_exact by (unfold br; lia).
        unfold valid. cbn [delivered]. rewrite <- !app_assoc. reflexivity.
    + (* a failing read *)
      assert (Hread : sys_read (511 - bytes_read (vars s)) (net s)
                      = (-1, [], net0))
        by (rewrite Hnet; reflexivity).
      unfold iteration. rewrite Hst, (look_nothing s _ _ _ Hb Hread) by lia.
      rewrite run_exited by (simpl; discriminate). simpl.
      rewrite app_nil_r. repeat split; auto. lia.
Qed.

(** What [save_data] has done when it returns 0. *)
Lemma save_data_returned_0 (cfg : config) (dsk : disk) (b : list Z)
    (len success_ : Z) (evs : list event) :
  save_data cfg dsk b len success_ = (Returned 0, evs) ->
  In (EvWrite (firstn (Z.to_nat len) b) len) evs.
Proof.
  assert (Hw : forall filename evs',
             write_out dsk filename b len = (Returned 0, evs') ->
             In (EvWrite (firstn (Z.to_nat len) b) len) evs').
  { intros filename evs'. unfold write_out.
    destruct (_ <? 0); [discriminate|].
    destruct (Z.eqb_spec (written dsk (firstn (Z.to_nat len) b)) len)
      as [->|_]; simpl; [|discriminate].
    intros [= <-]. simpl. auto. }
  unfold save_data. destruct (negb _).
  - destruct (memchr b STAR (Z.to_nat len)); [|discriminate].
    destruct (write_out dsk _ b len) as [res evs'] eqn:E.
    intros [= -> <-]. right. eapply Hw; eauto.
  - destruct (pick_name _ _ _) as [[filename|] evs0]; [|discriminate].
    destruct (write_out dsk filename b len) as [res evs'] eqn:E.
    intros [= -> <-]. apply in_or_app. right. eapply Hw; eauto.
Qed.

(** X12. A call that delivers fewer than 54 bytes before the connection
    closes or fails ends as [CLOSED], without success and without reset,
    with exactly the bytes delivered in the array; and when [save_data]
    returns 0, exactly those bytes have been written to the file. *)
Theorem short_call_closed_with_bytes_delivered (cfg : config) (dsk : disk)
    (junk : list Z) (net0 : list arrival) :
  (length (delivered net0) < 54)%nat ->
  exists r,
    handler cfg dsk junk net0 (session_fuel net0) = Some r
    /\ outcome r = CLOSED
    /\ success (final r) = 0
    /\ reset (final r) = 0
    /\ bytes_read (final r) = Z.of_nat (length (delivered net0))
    /\ firstn (length (delivered net0)) (buf (final r)) = delivered net0
    /\ (saved r = Some (Returned 0) ->
        In (EvWrite (delivered net0) (Z.of_nat (length (delivered net0))))
           (effects r)).
Proof.
  intros Hlen. unfold handler.
  pose proof (run_sound junk net0 (session_fuel net0)) as (_ & _ & Hsucc & _).
  destruct (run_short net0 (start junk net0) (session_fuel net0)
              (start_sound junk net0) eq_refl eq_refl)
    as (Hst & Hre & Hbr & Hbuf).
  { unfold session_fuel. pose proof (length_le_weight net0). lia. }
  { simpl. unfold DATA_LENGTH. lia. }
  set (s := run (session_fuel net0) (start junk net0)) in *.
  cbn [start vars bytes_read reset buf] in Hre, Hbr, Hbuf.
  rewrite Z.add_0_l in Hbr. simpl in Hbuf.
  rewrite Hst in *. eexists. split; [reflexivity|].
  unfold epilogue. rewrite Hbr in Hbuf. rewrite Nat2Z.id in Hbuf.
  destruct (log_to_file cfg).
  - destruct (save_data cfg dsk (buf (vars s)) (bytes_read (vars s))
                (success (vars s))) as [res evs] eqn:Hsave.
    cbn [outcome final effects saved]. repeat split; auto.
    intros [= ->]. apply in_or_app. right.
    apply save_data_returned_0 in Hsave.
    rewrite Hbr, Nat2Z.id, Hbuf in Hsave. exact Hsave.
  - cbn [outcome final effects saved]. repeat split; auto. discriminate.
Qed.

Lemma short_call_closed_with_bytes_delivered_witness :
  exists r,
    handler sample_config sample_disk [] dropped_call
            (session_fuel dropped_call) = Some r
    /\ outcome r = CLOSED
    /\ firstn 20 (buf (final r)) = bytes "TC!" ++ repeat 0 17.
Proof.
  destruct (short_call_closed_with_bytes_delivered
              sample_config sample_disk [] dropped_call)
    as (r & Hr & Ho & _ & _ & _ & Hb & _).
  - vm_compute. lia.
  - exists r. split; [exact Hr|]. split; [exact Ho|exact Hb].
Defined.

(** The corruption test is only true of an array with a zero byte at
    offset 31 or beyond, among the bytes received. *)
Lemma is_corrupted_needs_zero (b : list Z) (n : Z) :
  is_corrupted b n = true ->
  exists j, (31 <= j)%nat /\ Z.of_nat j < n /\ peek b j = 0.
Proof.
  unfold is_corrupted. intros H. apply andb_true_iff in H.
  destruct H as [Hn H]. cbv zeta in H. apply orb_true_iff in H.
  assert (Hocc : exists a i, (30 <= i)%nat /\ Z.of_nat i + 3 <= n
                             /\ occurs_at [a; 0; 0] b i).
  { destruct H as [H|H]; apply memmem_found in H; destruct H as [j Hj];
      apply occurs_in_window in Hj; try discriminate;
      destruct Hj as [Hb Ho]; simpl length in Hb;
      [exists 1|exists 0]; exists (30 + j)%nat;
      (split; [lia|]); (split; [lia|exact Ho]). }
  destruct Hocc as (a & i & Hi & Hb & Ho).
  apply occurs_at_3 in Ho. destruct Ho as (_ & _ & H1 & _).
  exists (i + 1)%nat. repeat split; auto; lia.
Qed.

Section WellFormedCall.

Variables pre payload : list Z.

Hypothesis pre_without_star : forall b, In b pre -> b <> STAR.
Hypothesis pre_quiet :
  forall i, (30 <= i < length pre)%nat -> peek pre i <> 0.
Hypothesis payload_length : (54 <= length payload)%nat.
Hypothesis payload_starts : peek payload 0 = STAR.
Hypothesis payload_stars :
  Forall (fun o => peek payload o = STAR) star_offsets.
Hypothesis payload_without_nul :
  forall i, (i < 54)%nat -> peek payload i <> 0.

(** Once the first 54 bytes of the payload are in, [data_done] accepts
    and changes nothing. *)
Lemma prefix_accepted (n : nat) :
  (length pre + 54 <= n)%nat ->
  data_done (firstn n (pre ++ payload))
            (Z.of_nat (length (firstn n (pre ++ payload))))
  = (true, firstn n (pre ++ payload)).
Proof.
  intros Hn.
  rewrite firstn_app, (firstn_all2 pre) by lia.
  set (part := firstn (n - length pre) payload).
  assert (Hpl : (54 <= length part)%nat)
    by (unfold part; rewrite length_firstn; lia).
  assert (Hpeek : forall i, (i < 54)%nat -> peek part i = peek payload i).
  { intros i Hi. apply peek_firstn. lia. }
  assert (Hst : Forall (fun o => peek part o = STAR) star_offsets).
  { rewrite Forall_forall in *. intros o Ho.
    rewrite Hpeek by now apply star_offsets_below_54. auto. }
  assert (Hstr : (54 <= strlen part)%nat).
  { apply strlen_first_zero; [|lia].
    intros i Hi. rewrite Hpeek; auto. }
  assert (Hcount : (8 <= star_count part)%nat).
  { unfold star_count, c_string.
    etransitivity; [|apply (count_occ_firstn_le _ _ 54)].
    rewrite firstn_firstn, Nat.min_l by lia.
    apply (count_occ_at_offsets STAR [53; 47; 33; 29; 24; 17; 11; 0]%nat).
    - simpl. lia.
    - pose proof (strlen_le_length part). lia.
    - rewrite Forall_forall in Hst. intros p Hp. simpl in Hp.
      destruct Hp as [<-|[<-|[<-|[<-|[<-|[<-|[<-|[<-|[]]]]]]]]];
        try solve [apply Hst; simpl; auto 10].
      rewrite Hpeek by lia. exact payload_starts. }
  assert (Hm : memchr (pre ++ part) STAR
                 (Z.to_nat (Z.of_nat (length (pre ++ part))))
               = Some (length pre)).
  { rewrite Nat2Z.id, length_app.
    destruct part as [|p0 part0] eqn:E; [simpl in Hpl; lia|].
    assert (p0 = STAR).
    { rewrite <- payload_starts, <- Hpeek by lia. reflexivity. }
    subst p0. apply memchr_first; auto. simpl. lia. }
  rewrite (data_done_found _ _ _ Hm). rewrite length_app.
  unfold DATA_LENGTH.
  destruct (Z.ltb_spec (Z.of_nat (length pre + length part)) 54); [lia|].
  destruct (Z.ltb_spec (Z.of_nat (length pre + length part)
                        - Z.of_nat (length pre)) 54); [lia|].
  simpl orb. cbv iota zeta.
  assert (Hsk : skipn (length pre) (pre ++ part) = part).
  { rewrite skipn_app, skipn_all, Nat.sub_diag. reflexivity. }
  rewrite Hsk, firstn_app_exact by reflexivity.
  rewrite (autocorrect_well_formed part Hst).
  destruct (Nat.leb_spec 7 (star_count part)); [|lia].
  destruct (Nat.leb_spec 53 (strlen part)); [|lia].
  reflexivity.
Qed.

Lemma peek_prefix (n j : nat) :
  (j < n)%nat -> (j < length pre + 54)%nat ->
  (30 <= j)%nat -> peek (firstn n (pre ++ payload)) j <> 0.
Proof.
  intros Hj Hlt H30. rewrite peek_firstn by lia.
  destruct (Nat.lt_ge_cases j (length pre)) as [Hp|Hp].
  - rewrite peek_app_l by lia. apply pre_quiet. lia.
  - rewrite peek_app_r by lia. apply payload_without_nul. lia.
Qed.

(** Before that, it waits, and nothing looks like corruption. *)
Lemma prefix_pending (n : nat) :
  (n < length pre + 54)%nat ->
  data_done (firstn n (pre ++ payload)) (Z.of_nat n)
  = (false, firstn n (pre ++ payload))
  /\ is_corrupted (firstn n (pre ++ payload)) (Z.of_nat n) = false.
Proof.
  intros Hn. split.
  - apply data_done_short. intros start Hm.
    apply memchr_Some in Hm. destruct Hm as (Hs & Hl & Hk & _).
    rewrite Nat2Z.id in Hs.
    destruct (Nat.lt_ge_cases start (length pre)) as [Hp|Hp].
    + exfalso. rewrite peek_firstn, peek_app_l in Hk by lia.
      apply (pre_without_star (peek pre start)); auto.
      unfold peek. now apply nth_In.
    + unfold DATA_LENGTH. lia.
  - destruct (is_corrupted _ _) eqn:Hc; [|reflexivity].
    apply is_corrupted_needs_zero in Hc.
    destruct Hc as (j & Hj & Hjn & Hz).
    exfalso. apply (peek_prefix n j); auto; lia.
Qed.

(** The session on such a call, from a point at which the printout is
    not complete yet. *)
Lemma run_well_formed (net0 : list arrival) :
  forall (s : session) (fuel : nat),
    sound s -> stage s = ACCUMULATING -> net s = net0 ->
    (length net0 < fuel)%nat ->
    firstn (Z.to_nat (bytes_read (vars s))) (buf (vars s))
      ++ delivered net0 = pre ++ payload ->
    (length (pre ++ payload) <= 511)%nat ->
    bytes_read (vars s) < Z.of_nat (length pre + 54) ->
    stage (run fuel s) = SUCCESS
    /\ reset (vars (run fuel s)) = reset (vars s)
    /\ exists n,
         bytes_read (vars (run fuel s)) = Z.of_nat n
         /\ (length pre + 54 <= n <= length (pre ++ payload))%nat
         /\ firstn n (buf (vars (run fuel s)))
            = firstn n (pre ++ payload).
Proof.
  induction net0 as [|a net0 IH];
    intros s fuel Hs Hst Hnet Hfuel Htot Hfit Hbr;
    (destruct fuel as [|fuel]; [simpl in Hfuel; lia|]);
    pose proof Hs as (Hb & _); pose proof Hb as (Hbl & Hbr0 & _);
    assert (Hfl : length (firstn (Z.to_nat (bytes_read (vars s)))
                            (buf (vars s)))
                  = Z.to_nat (bytes_read (vars s)))
      by (rewrite length_firstn; lia).
  - exfalso. simpl in Htot. rewrite app_nil_r in Htot.
    apply (f_equal (@length Z)) in Htot. rewrite Hfl, length_app in Htot.
    lia.
  - destruct a as [b more|].
    2: { exfalso. simpl in Htot. rewrite app_nil_r in Htot.
         apply (f_equal (@length Z)) in Htot.
         rewrite Hfl, length_app in Htot. lia. }
    rewrite run_succ. cbn [delivered] in Htot.
    rewrite app_assoc in Htot.
    set (valid := firstn (Z.to_nat (bytes_read (vars s))) (buf (vars s))
                  ++ b :: more) in *.
    assert (Hvl : length valid
                  = (Z.to_nat (bytes_read (vars s)) + S (length more))%nat).
    { unfold valid. rewrite length_app, Hfl. reflexivity. }
    assert (Hvt : (length valid <= length (pre ++ payload))%nat).
    { rewrite <- Htot, length_app. lia. }
    assert (Hvp : valid = firstn (length valid) (pre ++ payload)).
    { rewrite <- Htot. symmetry. now apply firstn_app_exact. }
    assert (Hread : sys_read (511 - bytes_read (vars s)) (net s)
                    = (Z.of_nat (S (length more)), b :: more, net0)).
    { rewrite Hnet. apply sys_read_whole. lia. }
    destruct (look_received s _ _ _ Hb Hread ltac:(lia))
      as (Hn & Hl & Hlook).
    cbv zeta in Hn, Hl, Hlook. fold valid in Hn, Hl, Hlook.
    set (br := Z.of_nat (length valid)) in *.
    pose proof (iteration_sound s Hs) as Hs'.
    destruct (Nat.lt_ge_cases (length valid) (length pre + 54))
      as [Hpend|Hdone].
    + (* not complete yet *)
      destruct (prefix_pending (length valid) Hpend) as [Hdd Hc].
      rewrite <- Hvp in Hdd, Hc. fold br in Hdd, Hc.
      rewrite Hdd in Hlook. cbn [fst snd] in Hlook.
      rewrite Hc in Hlook.
      unfold iteration in *. rewrite Hst, Hlook in *.
      match goal with
      | |- context [run fuel ?x] => set (s1 := x) in *
      end.
      assert (Eb : bytes_read (vars s1) = br) by reflexivity.
      assert (Er : reset (vars s1) = reset (vars s)) by reflexivity.
      assert (Ef : buf (vars s1)
                   = valid ++ 0 :: skipn (S (length valid)) (buf (vars s)))
        by reflexivity.
      rewrite <- Er. apply IH; auto.
      * simpl in Hfuel. lia.
      * rewrite Eb, Ef. unfold br. rewrite Nat2Z.id.
        rewrite firstn_app_exact by reflexivity. exact Htot.
      * rewrite Eb. unfold br. lia.
    + (* complete *)
      pose proof (prefix_accepted (length valid) Hdone) as Hdd.
      rewrite <- Hvp in Hdd. fold br in Hdd.
      rewrite Hdd in Hlook. cbn [fst snd] in Hlook.
      unfold iteration. rewrite Hst, Hlook.
      rewrite run_exited by (simpl; discriminate).
      cbn [vars stage reset bytes_read buf].
      split; [reflexivity|]. split; [reflexivity|].
      exists (length valid). split; [reflexivity|]. split; [lia|].
      rewrite firstn_app_exact by reflexivity. exact Hvp.
Qed.

(** X13. A call that delivers, in runs of any sizes, bytes without
    ['*'] (and without a zero byte from offset 30 on) followed by a
    printout with its delimiters at the seven offsets and no zero byte
    in its first 54 bytes, 511 bytes at most in all, ends in [SUCCESS]
    with no reset, as soon as a [read] has brought the 54th byte of the
    printout, and with the bytes received unchanged in the array. *)
Theorem well_formed_call_succeeds (cfg : config) (dsk : disk)
    (junk : list Z) (net0 : list arrival) :
  delivered net0 = pre ++ payload ->
  (length (pre ++ payload) <= 511)%nat ->
  exists r,
    handler cfg dsk junk net0 (session_fuel net0) = Some r
    /\ outcome r = SUCCESS
    /\ success (final r) = 1
    /\ reset (final r) = 0
    /\ exists n,
         bytes_read (final r) = Z.of_nat n
         /\ (length pre + 54 <= n <= length (pre ++ payload))%nat
         /\ firstn n (buf (final r)) = firstn n (pre ++ payload).
Proof.
  intros Hnet Hfit. unfold handler.
  pose proof (run_sound junk net0 (session_fuel net0))
    as (_ & _ & Hsucc & _).
  destruct (run_well_formed net0 (start junk net0) (session_fuel net0)
              (start_sound junk net0) eq_refl eq_refl)
    as (Hst & Hre & n & Hbr & Hn & Hbuf); auto.
  { unfold session_fuel. pose proof (length_le_weight net0). lia. }
  { simpl. lia. }
  set (s := run (session_fuel net0) (start junk net0)) in *.
  rewrite Hst in *. eexists. split; [reflexivity|].
  assert (He : outcome (epilogue cfg dsk s) = SUCCESS
               /\ final (epilogue cfg dsk s) = vars s).
  { unfold epilogue. rewrite Hst. destruct (log_to_file cfg); auto.
    destruct (save_data _ _ _ _ _); auto. }
  destruct He as [Ho Hf]. rewrite Ho, Hf.
  repeat split; auto. exists n. auto.
Qed.

End WellFormedCall.

Lemma well_formed_call_succeeds_witness :
  exists r,
    handler sample_config sample_disk [] good_call (session_fuel good_call)
    = Some r
    /\ outcome r = SUCCESS
    /\ reset (final r) = 0.
Proof.
  destruct (well_formed_call_succeeds preamble printout) with
    (cfg := sample_config) (dsk := sample_disk) (junk := @nil Z)
    (net0 := good_call)
    as (r & Hr & Ho & _ & Hre & _).
  - intros b Hb. vm_compute in Hb.
    repeat (destruct Hb as [<-|Hb]; [discriminate|]). contradiction.
  - intros i Hi. vm_compute in Hi. lia.
  - vm_compute. lia.
  - reflexivity.
  - unfold star_offsets. repeat constructor.
  - intros i Hi.
    do 54 (destruct i as [|i]; [discriminate|]). lia.
  - reflexivity.
  - vm_compute. lia.
  - exists r. auto.
Defined.

(** * Further properties of [save_data] *)







Lemma pick_name_shape (dir : list Z) (exists_ : list Z -> bool)
    (tries : list (Z * Z)) :
  forallb is_filename (snd (pick_name dir exists_ tries)) = true
  /\ forall name,
       fst (pick_name dir exists_ tries) = Some name ->
       last (snd (pick_name dir exists_ tries)) EvCloseFile
       = EvFilename name.
Proof.
  induction tries as [|[t r] tries IH]; cbn [pick_name].
  - split; [reflexivity|discriminate].
  - destruct (exists_ _).
    + destruct (pick_name dir exists_ tries) as [found evs].
      cbn [fst snd] in *. destruct IH as [IH1 IH2]. split.
      * simpl. exact IH1.
      * intros name Hn. specialize (IH2 name Hn).
        destruct evs as [|e evs]; [|exact IH2].
        simpl in IH2. discriminate.
    + cbn [fst snd]. split; [reflexivity|]. intros name [= <-]. reflexivity.
Qed.

(** X15. How [save_data] deals with the file: after the names it has
    tried, either it stops (no name was free), or [open] fails and it
    returns -1 with nothing written, or it opens the last name tried,
    writes the first [len] bytes of the array in one [write], closes the
    file, and returns 0 when [write] has taken all of them and -1 when it
    has not.  A file that was opened is always closed. *)
Theorem save_data_protocol (cfg : config) (dsk : disk) (b : list Z)
    (len success_ : Z) :
  let res := fst (save_data cfg dsk b len success_) in
  let evs := snd (save_data cfg dsk b len success_) in
  exists names tail,
    evs = names ++ tail
    /\ forallb is_filename names = true
    /\ (tail = [] /\ (res = AssertionFailed \/ res = NoFreeName)
        \/ exists name,
             last names EvCloseFile = EvFilename name
             /\ let fd := open_fd dsk name in
                let data := firstn (Z.to_nat len) b in
                let wres := written dsk data in
                (fd < 0 /\ tail = [EvOpen name fd] /\ res = Returned (-1))
                \/ (0 <= fd
                    /\ tail = [EvOpen name fd; EvWrite data wres; EvCloseFile]
                    /\ res = Returned (if wres =? len then 0 else -1))).
Proof.
  assert (Hw : forall name,
     let fd := open_fd dsk name in
     let data := firstn (Z.to_nat len) b in
     let wres := written dsk data in
     (fd < 0 /\ snd (write_out dsk name b len) = [EvOpen name fd]
      /\ fst (write_out dsk name b len) = Returned (-1))
     \/ (0 <= fd
         /\ snd (write_out dsk name b len)
            = [EvOpen name fd; EvWrite data wres; EvCloseFile]
         /\ fst (write_out dsk name b len)
            = Returned (if wres =? len then 0 else -1))).
  { intros name. cbv zeta. unfold write_out.
    destruct (Z.ltb_spec (open_fd dsk name) 0); [left; auto|].
    right. split; [lia|].
    destruct (written dsk (firstn (Z.to_nat len) b) =? len); auto. }
  cbv zeta. unfold save_data.
  destruct (negb (success_ =? 0)).
  - destruct (memchr b STAR (Z.to_nat len)) as [star|].
    + match goal with
      | |- context [write_out dsk ?n b len] => set (name := n)
      end.
      specialize (Hw name).
      destruct (write_out dsk name b len) as [res evs].
      cbn [fst snd] in *.
      exists [EvFilename name], evs. split; [reflexivity|].
      split; [reflexivity|]. right. exists name. split; [reflexivity|].
      exact Hw.
    + exists [], []. cbn [fst snd]. repeat split; auto.
  - pose proof (pick_name_shape (outputdir cfg) (taken dsk) (attempts dsk))
      as [Hall Hlast].
    destruct (pick_name (outputdir cfg) (taken dsk) (attempts dsk))
      as [[name|] evs0]; cbn [fst snd] in *.
    + specialize (Hw name). specialize (Hlast name eq_refl).
      destruct (write_out dsk name b len) as [res evs].
      cbn [fst snd] in *.
      exists evs0, evs. split; [reflexivity|]. split; [exact Hall|].
      right. exists name. split; [exact Hlast|exact Hw].
    + exists evs0, []. rewrite app_nil_r. repeat split; auto.
Qed.
